(** * three.js-volume-renderer: the demo application [src/App.js]

    A shallow embedding of the application glue around the volume
    renderer: the metadata of the soot-visibility data set, the loader
    ([App._init]), the sampling function handed to the atlas fill, the
    control-panel handlers and the per-frame driver ([App.#update]).

    JavaScript numbers are IEEE 754 binary64 values and are modelled by
    Rocq's primitive [float], whose operations are the processor's;
    voxel indices and element counts, which the program only ever builds
    from small integers, are modelled by [Z].

    The first part of the file holds the embedding, the second part the
    properties proved about it. *)

From Stdlib Require Import ZArith Lia List Bool String Ascii.
From Stdlib.Strings Require Import Byte.
From Stdlib Require Import Floats.
Import ListNotations.

Set Warnings "-inexact-float".

(** * Part I: the embedding *)

(** ** Vectors and the volume metadata *)

Record Vector3 (A : Type) : Type := mkVector3 { vx : A; vy : A; vz : A }.
Arguments mkVector3 {A} _ _ _.
Arguments vx {A} _.
Arguments vy {A} _.
Arguments vz {A} _.

Record VolumeMeta : Type := mkVolumeMeta {
  time_count : Z;
  timestep : float;
  grid_size : Vector3 Z;
  grid_offset : Vector3 float;
  voxel_size : Vector3 float;
  value_scale : float
}.

(** [const sootVisibilityMeta = { ... }] (App.js, lines 7-14). *)
Definition sootVisibilityMeta : VolumeMeta :=
  {| time_count := 151;
     timestep := 0.25;
     grid_size := mkVector3 50%Z 50%Z 50%Z;
     grid_offset := mkVector3 (-1)%float (-1)%float (-1)%float;
     voxel_size := mkVector3 0.04%float 0.04%float 0.04%float;
     value_scale := (1 / 8)%float |}.

(** ** JavaScript numbers, [Math] and typed arrays *)

Module JS.

Open Scope float_scope.

Definition is_pos_zero (x : float) : bool := is_zero x && negb (get_sign x).
Definition is_neg_zero (x : float) : bool := is_zero x && get_sign x.

(** [Math.max(...values)] as ECMAScript defines it: the result is NaN as
    soon as one argument is; otherwise the arguments are folded from
    -Infinity, +0 counting as larger than -0. *)
Definition Math_max (values : list float) : float :=
  if existsb is_nan values then nan
  else fold_left
         (fun highest number =>
            let highest :=
              if is_pos_zero number && is_neg_zero highest then number
              else highest in
            if highest <? number then number else highest)
         values neg_infinity.

(** [Math.min(...values)]: the mirror image, folded from +Infinity, -0
    counting as smaller than +0. *)
Definition Math_min (values : list float) : float :=
  if existsb is_nan values then nan
  else fold_left
         (fun lowest number =>
            let lowest :=
              if is_neg_zero number && is_pos_zero lowest then number
              else lowest in
            if number <? lowest then number else lowest)
         values infinity.

(** A non-negative integer below 2^63 as a Number (exact below 2^53). *)
Definition float_of_Z (n : Z) : float := of_uint63 (Uint63.of_Z n).

(** An element read from a [Uint8Array]. *)
Definition float_of_byte (b : byte) : float :=
  float_of_Z (Z.of_N (Byte.to_N b)).

(** Rounding of a Number to binary32 (round to nearest, ties to even),
    as performed when a value is stored into a [Float32Array]; the
    result is again a Number. *)
Definition Math_fround (x : float) : float :=
  match Prim2SF x with
  | S754_finite s m e => SF2Prim (binary_round 24 128 s m e)
  | _ => x
  end.

(** [data[index]] on a typed array: [undefined] (here [None]) outside
    the array. *)
Definition typed_get (data : list float) (index : Z) : option float :=
  if (index <? 0)%Z then None else nth_error data (Z.to_nat index).

(** [ToNumber]: [undefined] becomes NaN in arithmetic. *)
Definition ToNumber (v : option float) : float :=
  match v with
  | Some x => x
  | None => nan
  end.

(** [data.reduce((a, x) => a > x ? a : x)] without an initial value: a
    [TypeError] ([None]) on an empty array, otherwise a fold from the
    first element. *)
Definition reduce_max (data : list float) : option float :=
  match data with
  | [] => None
  | first :: rest =>
      Some (fold_left (fun a x => if x <? a then a else x) rest first)
  end.

(** ASCII white space and line terminators, as removed by
    [String.prototype.trim]. *)
Definition is_space (c : ascii) : bool :=
  let n := N_of_ascii c in
  (n =? 32)%N || ((9 <=? n)%N && (n <=? 13)%N).

Fixpoint trimStart (s : string) : string :=
  match s with
  | EmptyString => EmptyString
  | String c rest => if is_space c then trimStart rest else s
  end.

Fixpoint trimEnd (s : string) : string :=
  match s with
  | EmptyString => EmptyString
  | String c rest =>
      match trimEnd rest with
      | EmptyString => if is_space c then EmptyString else String c EmptyString
      | kept => String c kept
      end
  end.

Definition trim (s : string) : string := trimEnd (trimStart s).

(** [String.prototype.toLowerCase] on ASCII letters. *)
Definition lower_ascii (c : ascii) : ascii :=
  let n := N_of_ascii c in
  if ((65 <=? n)%N && (n <=? 90)%N) then ascii_of_N (n + 32) else c.

Fixpoint toLowerCase (s : string) : string :=
  match s with
  | EmptyString => EmptyString
  | String c rest => String (lower_ascii c) (toLowerCase rest)
  end.

(** Property lookup [object[name]] on an object literal. *)
Fixpoint lookup {A : Type} (name : string) (object : list (string * A))
  : option A :=
  match object with
  | [] => None
  | (key, value) :: rest =>
      if String.eqb key name then Some value else lookup name rest
  end.

End JS.

(** ** The flat index of the sampling function *)

Module Index.

Open Scope Z_scope.

(** The [index] constant of the arrow function passed to
    [updateAtlasTexture] (App.js, lines 130-133); multiplication
    associates to the left as in JavaScript. *)
Definition flat_index (meta : VolumeMeta) (xi yi zi t : Z) : Z :=
  yi +
  zi * vy (grid_size meta) +
  xi * vy (grid_size meta) * vz (grid_size meta) +
  t * vx (grid_size meta) * vy (grid_size meta) * vz (grid_size meta).

(** The index tuples the atlas fill ranges over. *)
Definition in_grid (meta : VolumeMeta) (xi yi zi t : Z) : Prop :=
  0 <= xi < vx (grid_size meta) /\
  0 <= yi < vy (grid_size meta) /\
  0 <= zi < vz (grid_size meta) /\
  0 <= t < time_count meta.

Definition sample_count (meta : VolumeMeta) : Z :=
  vx (grid_size meta) * vy (grid_size meta) * vz (grid_size meta) *
  time_count meta.

(** Recovers the index tuple [(xi, yi, zi, t)] from a flat index. *)
Definition unflatten (meta : VolumeMeta) (i : Z) : Z * Z * Z * Z :=
  let gx := vx (grid_size meta) in
  let gy := vy (grid_size meta) in
  let gz := vz (grid_size meta) in
  (i / (gy * gz) mod gx, i mod gy, i / gy mod gz, i / (gy * gz * gx)).

Definition positive_dims (meta : VolumeMeta) : Prop :=
  0 < vx (grid_size meta) /\ 0 < vy (grid_size meta) /\
  0 < vz (grid_size meta) /\ 0 < time_count meta.

End Index.

(** ** The application state *)

Module App.

Import JS.
Open Scope float_scope.
Open Scope string_scope.

(** What [renderer.setRenderTarget] can be given here: [null], the
    canvas, or [this.#renderTarget], which carries the depth texture. *)
Inductive render_target : Type :=
  | Canvas
  | DepthTarget.

(** The numeric uniforms of the volume renderer that App.js touches. *)
Inductive uniform : Type :=
  | u_time
  | u_random
  | u_minPaletteValue
  | u_maxPaletteValue
  | u_minCutoffValue
  | u_maxCutoffValue
  | u_cutoffFadeRange
  | u_valueMultiplier
  | u_extinctionCoefficient
  | u_extinctionMultiplier
  | u_alphaMultiplier
  | u_normalEpsilon.

Definition uniform_eqb (a b : uniform) : bool :=
  match a, b with
  | u_time, u_time | u_random, u_random
  | u_minPaletteValue, u_minPaletteValue
  | u_maxPaletteValue, u_maxPaletteValue
  | u_minCutoffValue, u_minCutoffValue
  | u_maxCutoffValue, u_maxCutoffValue
  | u_cutoffFadeRange, u_cutoffFadeRange
  | u_valueMultiplier, u_valueMultiplier
  | u_extinctionCoefficient, u_extinctionCoefficient
  | u_extinctionMultiplier, u_extinctionMultiplier
  | u_alphaMultiplier, u_alphaMultiplier
  | u_normalEpsilon, u_normalEpsilon => true
  | _, _ => false
  end.

(** The uniforms bound directly to a slider of the control panel
    ([folder.add(uniforms.<name>, 'value', ...)]). *)
Inductive slider : Type :=
  | MinPaletteValue
  | MaxPaletteValue
  | MinCutoffValue
  | MaxCutoffValue
  | CutoffFadeRange
  | ValueMultiplier
  | ExtinctionMultiplier
  | AlphaMultiplier
  | NormalEpsilon.

Definition slider_uniform (s : slider) : uniform :=
  match s with
  | MinPaletteValue => u_minPaletteValue
  | MaxPaletteValue => u_maxPaletteValue
  | MinCutoffValue => u_minCutoffValue
  | MaxCutoffValue => u_maxCutoffValue
  | CutoffFadeRange => u_cutoffFadeRange
  | ValueMultiplier => u_valueMultiplier
  | ExtinctionMultiplier => u_extinctionMultiplier
  | AlphaMultiplier => u_alphaMultiplier
  | NormalEpsilon => u_normalEpsilon
  end.

(** The check boxes of the "Shader Options" folder. *)
Inductive shader_flag : Type :=
  | UseVolumetricDepthTest
  | RenderMeanValue
  | UseExtinctionCoefficient
  | UseValueAsExtinctionCoefficient
  | UsePointLights
  | UseDirectionalLights
  | UseRandomStart
  | InvertNormals
  | RenderNormals.

(** The [options] object of the constructor (App.js, lines 271-291);
    [customFunction] is [null] or a string. *)
Record Options : Type := mkOptions {
  distance : float;
  extinctionCoefficient : float;
  normalEpsilon : float;
  useVolumetricDepthTest : bool;
  useExtinctionCoefficient : bool;
  useValueAsExtinctionCoefficient : bool;
  usePointLights : bool;
  useDirectionalLights : bool;
  useRandomStart : bool;
  renderMeanValue : bool;
  invertNormals : bool;
  renderNormals : bool;
  raySteps : float;
  functionPreset : string;
  useCustomFunction : bool;
  customFunction : option string
}.

Definition set_distance (v : float) (o : Options) : Options :=
  {| distance := v; extinctionCoefficient := extinctionCoefficient o;
     normalEpsilon := normalEpsilon o;
     useVolumetricDepthTest := useVolumetricDepthTest o;
     useExtinctionCoefficient := useExtinctionCoefficient o;
     useValueAsExtinctionCoefficient := useValueAsExtinctionCoefficient o;
     usePointLights := usePointLights o;
     useDirectionalLights := useDirectionalLights o;
     useRandomStart := useRandomStart o;
     renderMeanValue := renderMeanValue o;
     invertNormals := invertNormals o; renderNormals := renderNormals o;
     raySteps := raySteps o; functionPreset := functionPreset o;
     useCustomFunction := useCustomFunction o;
     customFunction := customFunction o |}.

Definition set_extinctionCoefficient (v : float) (o : Options) : Options :=
  {| distance := distance o; extinctionCoefficient := v;
     normalEpsilon := normalEpsilon o;
     useVolumetricDepthTest := useVolumetricDepthTest o;
     useExtinctionCoefficient := useExtinctionCoefficient o;
     useValueAsExtinctionCoefficient := useValueAsExtinctionCoefficient o;
     usePointLights := usePointLights o;
     useDirectionalLights := useDirectionalLights o;
     useRandomStart := useRandomStart o;
     renderMeanValue := renderMeanValue o;
     invertNormals := invertNormals o; renderNormals := renderNormals o;
     raySteps := raySteps o; functionPreset := functionPreset o;
     useCustomFunction := useCustomFunction o;
     customFunction := customFunction o |}.

Definition set_useVolumetricDepthTest (v : bool) (o : Options) : Options :=
  {| distance := distance o;
     extinctionCoefficient := extinctionCoefficient o;
     normalEpsilon := normalEpsilon o; useVolumetricDepthTest := v;
     useExtinctionCoefficient := useExtinctionCoefficient o;
     useValueAsExtinctionCoefficient := useValueAsExtinctionCoefficient o;
     usePointLights := usePointLights o;
     useDirectionalLights := useDirectionalLights o;
     useRandomStart := useRandomStart o;
     renderMeanValue := renderMeanValue o;
     invertNormals := invertNormals o; renderNormals := renderNormals o;
     raySteps := raySteps o; functionPreset := functionPreset o;
     useCustomFunction := useCustomFunction o;
     customFunction := customFunction o |}.

Definition set_useExtinctionCoefficient (v : bool) (o : Options) : Options :=
  {| distance := distance o;
     extinctionCoefficient := extinctionCoefficient o;
     normalEpsilon := normalEpsilon o;
     useVolumetricDepthTest := useVolumetricDepthTest o;
     useExtinctionCoefficient := v;
     useValueAsExtinctionCoefficient := useValueAsExtinctionCoefficient o;
     usePointLights := usePointLights o;
     useDirectionalLights := useDirectionalLights o;
     useRandomStart := useRandomStart o;
     renderMeanValue := renderMeanValue o;
     invertNormals := invertNormals o; renderNormals := renderNormals o;
     raySteps := raySteps o; functionPreset := functionPreset o;
     useCustomFunction := useCustomFunction o;
     customFunction := customFunction o |}.

Definition set_useValueAsExtinctionCoefficient (v : bool) (o : Options) : Options :=
  {| distance := distance o;
     extinctionCoefficient := extinctionCoefficient o;
     normalEpsilon := normalEpsilon o;
     useVolumetricDepthTest := useVolumetricDepthTest o;
     useExtinctionCoefficient := useExtinctionCoefficient o;
     useValueAsExtinctionCoefficient := v;
     usePointLights := usePointLights o;
     useDirectionalLights := useDirectionalLights o;
     useRandomStart := useRandomStart o;
     renderMeanValue := renderMeanValue o;
     invertNormals := invertNormals o; renderNormals := renderNormals o;
     raySteps := raySteps o; functionPreset := functionPreset o;
     useCustomFunction := useCustomFunction o;
     customFunction := customFunction o |}.

Definition set_usePointLights (v : bool) (o : Options) : Options :=
  {| distance := distance o;
     extinctionCoefficient := extinctionCoefficient o;
     normalEpsilon := normalEpsilon o;
     useVolumetricDepthTest := useVolumetricDepthTest o;
     useExtinctionCoefficient := useExtinctionCoefficient o;
     useValueAsExtinctionCoefficient := useValueAsExtinctionCoefficient o;
     usePointLights := v; useDirectionalLights := useDirectionalLights o;
     useRandomStart := useRandomStart o;
     renderMeanValue := renderMeanValue o;
     invertNormals := invertNormals o; renderNormals := renderNormals o;
     raySteps := raySteps o; functionPreset := functionPreset o;
     useCustomFunction := useCustomFunction o;
     customFunction := customFunction o |}.

Definition set_useDirectionalLights (v : bool) (o : Options) : Options :=
  {| distance := distance o;
     extinctionCoefficient := extinctionCoefficient o;
     normalEpsilon := normalEpsilon o;
     useVolumetricDepthTest := useVolumetricDepthTest o;
     useExtinctionCoefficient := useExtinctionCoefficient o;
     useValueAsExtinctionCoefficient := useValueAsExtinctionCoefficient o;
     usePointLights := usePointLights o; useDirectionalLights := v;
     useRandomStart := useRandomStart o;
     renderMeanValue := renderMeanValue o;
     invertNormals := invertNormals o; renderNormals := renderNormals o;
     raySteps := raySteps o; functionPreset := functionPreset o;
     useCustomFunction := useCustomFunction o;
     customFunction := customFunction o |}.

Definition set_useRandomStart (v : bool) (o : Options) : Options :=
  {| distance := distance o;
     extinctionCoefficient := extinctionCoefficient o;
     normalEpsilon := normalEpsilon o;
     useVolumetricDepthTest := useVolumetricDepthTest o;
     useExtinctionCoefficient := useExtinctionCoefficient o;
     useValueAsExtinctionCoefficient := useValueAsExtinctionCoefficient o;
     usePointLights := usePointLights o;
     useDirectionalLights := useDirectionalLights o; useRandomStart := v;
     renderMeanValue := renderMeanValue o;
     invertNormals := invertNormals o; renderNormals := renderNormals o;
     raySteps := raySteps o; functionPreset := functionPreset o;
     useCustomFunction := useCustomFunction o;
     customFunction := customFunction o |}.

Definition set_renderMeanValue (v : bool) (o : Options) : Options :=
  {| distance := distance o;
     extinctionCoefficient := extinctionCoefficient o;
     normalEpsilon := normalEpsilon o;
     useVolumetricDepthTest := useVolumetricDepthTest o;
     useExtinctionCoefficient := useExtinctionCoefficient o;
     useValueAsExtinctionCoefficient := useValueAsExtinctionCoefficient o;
     usePointLights := usePointLights o;
     useDirectionalLights := useDirectionalLights o;
     useRandomStart := useRandomStart o; renderMeanValue := v;
     invertNormals := invertNormals o; renderNormals := renderNormals o;
     raySteps := raySteps o; functionPreset := functionPreset o;
     useCustomFunction := useCustomFunction o;
     customFunction := customFunction o |}.

Definition set_invertNormals (v : bool) (o : Options) : Options :=
  {| distance := distance o;
     extinctionCoefficient := extinctionCoefficient o;
     normalEpsilon := normalEpsilon o;
     useVolumetricDepthTest := useVolumetricDepthTest o;
     useExtinctionCoefficient := useExtinctionCoefficient o;
     useValueAsExtinctionCoefficient := useValueAsExtinctionCoefficient o;
     usePointLights := usePointLights o;
     useDirectionalLights := useDirectionalLights o;
     useRandomStart := useRandomStart o;
     renderMeanValue := renderMeanValue o; invertNormals := v;
     renderNormals := renderNormals o; raySteps := raySteps o;
     functionPreset := functionPreset o;
     useCustomFunction := useCustomFunction o;
     customFunction := customFunction o |}.

Definition set_renderNormals (v : bool) (o : Options) : Options :=
  {| distance := distance o;
     extinctionCoefficient := extinctionCoefficient o;
     normalEpsilon := normalEpsilon o;
     useVolumetricDepthTest := useVolumetricDepthTest o;
     useExtinctionCoefficient := useExtinctionCoefficient o;
     useValueAsExtinctionCoefficient := useValueAsExtinctionCoefficient o;
     usePointLights := usePointLights o;
     useDirectionalLights := useDirectionalLights o;
     useRandomStart := useRandomStart o;
     renderMeanValue := renderMeanValue o;
     invertNormals := invertNormals o; renderNormals := v;
     raySteps := raySteps o; functionPreset := functionPreset o;
     useCustomFunction := useCustomFunction o;
     customFunction := customFunction o |}.

Definition set_raySteps (v : float) (o : Options) : Options :=
  {| distance := distance o;
     extinctionCoefficient := extinctionCoefficient o;
     normalEpsilon := normalEpsilon o;
     useVolumetricDepthTest := useVolumetricDepthTest o;
     useExtinctionCoefficient := useExtinctionCoefficient o;
     useValueAsExtinctionCoefficient := useValueAsExtinctionCoefficient o;
     usePointLights := usePointLights o;
     useDirectionalLights := useDirectionalLights o;
     useRandomStart := useRandomStart o;
     renderMeanValue := renderMeanValue o;
     invertNormals := invertNormals o; renderNormals := renderNormals o;
     raySteps := v; functionPreset := functionPreset o;
     useCustomFunction := useCustomFunction o;
     customFunction := customFunction o |}.

Definition set_functionPreset (v : string) (o : Options) : Options :=
  {| distance := distance o;
     extinctionCoefficient := extinctionCoefficient o;
     normalEpsilon := normalEpsilon o;
     useVolumetricDepthTest := useVolumetricDepthTest o;
     useExtinctionCoefficient := useExtinctionCoefficient o;
     useValueAsExtinctionCoefficient := useValueAsExtinctionCoefficient o;
     usePointLights := usePointLights o;
     useDirectionalLights := useDirectionalLights o;
     useRandomStart := useRandomStart o;
     renderMeanValue := renderMeanValue o;
     invertNormals := invertNormals o; renderNormals := renderNormals o;
     raySteps := raySteps o; functionPreset := v;
     useCustomFunction := useCustomFunction o;
     customFunction := customFunction o |}.

Definition set_useCustomFunction (v : bool) (o : Options) : Options :=
  {| distance := distance o;
     extinctionCoefficient := extinctionCoefficient o;
     normalEpsilon := normalEpsilon o;
     useVolumetricDepthTest := useVolumetricDepthTest o;
     useExtinctionCoefficient := useExtinctionCoefficient o;
     useValueAsExtinctionCoefficient := useValueAsExtinctionCoefficient o;
     usePointLights := usePointLights o;
     useDirectionalLights := useDirectionalLights o;
     useRandomStart := useRandomStart o;
     renderMeanValue := renderMeanValue o;
     invertNormals := invertNormals o; renderNormals := renderNormals o;
     raySteps := raySteps o; functionPreset := functionPreset o;
     useCustomFunction := v; customFunction := customFunction o |}.

Definition set_customFunction (v : option string) (o : Options) : Options :=
  {| distance := distance o;
     extinctionCoefficient := extinctionCoefficient o;
     normalEpsilon := normalEpsilon o;
     useVolumetricDepthTest := useVolumetricDepthTest o;
     useExtinctionCoefficient := useExtinctionCoefficient o;
     useValueAsExtinctionCoefficient := useValueAsExtinctionCoefficient o;
     usePointLights := usePointLights o;
     useDirectionalLights := useDirectionalLights o;
     useRandomStart := useRandomStart o;
     renderMeanValue := renderMeanValue o;
     invertNormals := invertNormals o; renderNormals := renderNormals o;
     raySteps := raySteps o; functionPreset := functionPreset o;
     useCustomFunction := useCustomFunction o; customFunction := v |}.
Definition set_flag (f : shader_flag) (v : bool) (o : Options) : Options :=
  match f with
  | UseVolumetricDepthTest => set_useVolumetricDepthTest v o
  | RenderMeanValue => set_renderMeanValue v o
  | UseExtinctionCoefficient => set_useExtinctionCoefficient v o
  | UseValueAsExtinctionCoefficient => set_useValueAsExtinctionCoefficient v o
  | UsePointLights => set_usePointLights v o
  | UseDirectionalLights => set_useDirectionalLights v o
  | UseRandomStart => set_useRandomStart v o
  | InvertNormals => set_invertNormals v o
  | RenderNormals => set_renderNormals v o
  end.

(** The sampling callback [(xi, yi, zi, x, y, z, t) => float]. *)
Definition sampler : Type :=
  Z -> Z -> Z -> float -> float -> float -> Z -> float.

(** Calls the application makes on its collaborators: the volume
    renderer, the texture loader, the WebGL renderer with its render
    target, and the orbit controls. *)
Inductive call : Type :=
  | CreateAtlasTexture (gs : Vector3 Z) (go vs : Vector3 float) (tc : Z)
  | UpdateAtlasTexture (sampleFn : sampler)
  | UpdateMaterial (o : Options)
  | LoadTexture (path : string)
  | SetAnimationLoop
  | SetSize (width height : float)
  | TargetSetSize (width height : float)
  | OrbitControlsUpdate (dt : float)
  | Render (target : render_target).

(** The private fields of [App] that change after construction,
    together with the objects captured by the handlers: the renderer's
    current render target, the visibility of the point light and of the
    spinning cube, the uniforms, [options] and the text area. *)
Record App : Type := mkApp {
  renderer_target : render_target;
  pointLight_visible : bool;
  pointLight_position : Vector3 float;
  spinningCube_visible : bool;
  spinningCube_rotation : Vector3 float;
  lastTime : option float;
  timescale : float;
  uniforms : uniform -> float;
  options : Options;
  glslTextarea : string
}.

Definition set_renderer_target (v : render_target) (o : App) : App :=
  {| renderer_target := v; pointLight_visible := pointLight_visible o;
     pointLight_position := pointLight_position o;
     spinningCube_visible := spinningCube_visible o;
     spinningCube_rotation := spinningCube_rotation o;
     lastTime := lastTime o; timescale := timescale o;
     uniforms := uniforms o; options := options o;
     glslTextarea := glslTextarea o |}.

Definition set_pointLight_visible (v : bool) (o : App) : App :=
  {| renderer_target := renderer_target o; pointLight_visible := v;
     pointLight_position := pointLight_position o;
     spinningCube_visible := spinningCube_visible o;
     spinningCube_rotation := spinningCube_rotation o;
     lastTime := lastTime o; timescale := timescale o;
     uniforms := uniforms o; options := options o;
     glslTextarea := glslTextarea o |}.

Definition set_pointLight_position (v : Vector3 float) (o : App) : App :=
  {| renderer_target := renderer_target o;
     pointLight_visible := pointLight_visible o; pointLight_position := v;
     spinningCube_visible := spinningCube_visible o;
     spinningCube_rotation := spinningCube_rotation o;
     lastTime := lastTime o; timescale := timescale o;
     uniforms := uniforms o; options := options o;
     glslTextarea := glslTextarea o |}.

Definition set_spinningCube_visible (v : bool) (o : App) : App :=
  {| renderer_target := renderer_target o;
     pointLight_visible := pointLight_visible o;
     pointLight_position := pointLight_position o;
     spinningCube_visible := v;
     spinningCube_rotation := spinningCube_rotation o;
     lastTime := lastTime o; timescale := timescale o;
     uniforms := uniforms o; options := options o;
     glslTextarea := glslTextarea o |}.

Definition set_spinningCube_rotation (v : Vector3 float) (o : App) : App :=
  {| renderer_target := renderer_target o;
     pointLight_visible := pointLight_visible o;
     pointLight_position := pointLight_position o;
     spinningCube_visible := spinningCube_visible o;
     spinningCube_rotation := v; lastTime := lastTime o;
     timescale := timescale o; uniforms := uniforms o;
     options := options o; glslTextarea := glslTextarea o |}.

Definition set_lastTime (v : option float) (o : App) : App :=
  {| renderer_target := renderer_target o;
     pointLight_visible := pointLight_visible o;
     pointLight_position := pointLight_position o;
     spinningCube_visible := spinningCube_visible o;
     spinningCube_rotation := spinningCube_rotation o; lastTime := v;
     timescale := timescale o; uniforms := uniforms o;
     options := options o; glslTextarea := glslTextarea o |}.

Definition set_timescale (v : float) (o : App) : App :=
  {| renderer_target := renderer_target o;
     pointLight_visible := pointLight_visible o;
     pointLight_position := pointLight_position o;
     spinningCube_visible := spinningCube_visible o;
     spinningCube_rotation := spinningCube_rotation o;
     lastTime := lastTime o; timescale := v; uniforms := uniforms o;
     options := options o; glslTextarea := glslTextarea o |}.

Definition set_uniforms (v : uniform -> float) (o : App) : App :=
  {| renderer_target := renderer_target o;
     pointLight_visible := pointLight_visible o;
     pointLight_position := pointLight_position o;
     spinningCube_visible := spinningCube_visible o;
     spinningCube_rotation := spinningCube_rotation o;
     lastTime := lastTime o; timescale := timescale o; uniforms := v;
     options := options o; glslTextarea := glslTextarea o |}.

Definition set_options (v : Options) (o : App) : App :=
  {| renderer_target := renderer_target o;
     pointLight_visible := pointLight_visible o;
     pointLight_position := pointLight_position o;
     spinningCube_visible := spinningCube_visible o;
     spinningCube_rotation := spinningCube_rotation o;
     lastTime := lastTime o; timescale := timescale o;
     uniforms := uniforms o; options := v; glslTextarea := glslTextarea o |}.

Definition set_glslTextarea (v : string) (o : App) : App :=
  {| renderer_target := renderer_target o;
     pointLight_visible := pointLight_visible o;
     pointLight_position := pointLight_position o;
     spinningCube_visible := spinningCube_visible o;
     spinningCube_rotation := spinningCube_rotation o;
     lastTime := lastTime o; timescale := timescale o;
     uniforms := uniforms o; options := options o; glslTextarea := v |}.
Definition set_uniform (u : uniform) (v : float) (s : App) : App :=
  set_uniforms (fun n => if uniform_eqb n u then v else uniforms s n) s.

(** [const functionPresets = { ... }] (App.js, lines 142-269). *)
Definition functionPresets : list (string * string) :=
  [("Sphere", "
vec3 p = vec3(x, y, z) - vec3(1.0);
return length(p);
");
   ("Pulsing Sphere", "
vec3 p = vec3(x, y, z) - vec3(1.0);
return length(p) + 0.1 * sin(t);
");
   ("Expanding Rings", "
// Inverted normals
vec3 p = vec3(x, y, z) - vec3(1.0);
return sin(length(p) * 10.0 - t * 4.0);
");
   ("Cube", "
vec3 p = vec3(x, y, z) - vec3(1.0);
return max(max(abs(p.x), abs(p.y)), abs(p.z)) * 2.0;
");
   ("Spinning Cube", "
vec3 p = vec3(x, y, z) - vec3(1.0);
float cx = cos(t);
float sx = sin(t);
float rx = cx * p.x - sx * p.z;
float rz = sx * p.x + cx * p.z;
return max(max(abs(rx), abs(p.y)), abs(rz)) * 2.0;
");
   ("SphereCube Morph", "
vec3 p = vec3(x, y, z) - vec3(1.0);
float sphere = length(p);
float cube = max(max(abs(p.x), abs(p.y)), abs(p.z));
float blend = (sin(t) + 1.0) * 0.5;
return mix(sphere, cube, blend) * 2.0;
");
   ("Torus", "
vec3 p = vec3(x, y, z) - vec3(1.0);
float qx = length(vec2(p.x, p.z)) - 0.5;
return length(vec2(qx, p.y)) * 2.0;
");
   ("Surface", "
float wave1 = sin(x * 3.0 + t) * 0.1;
float wave2 = sin(z * 2.5 + t * 1.5) * 0.1;
float wave3 = sin((x + z) * 4.0 + t * 0.8) * 0.05;
return y - 1.0 - (wave1 + wave2 + wave3);
");
   ("Wobbly Sphere", "
vec3 p = vec3(x, y, z) - vec3(1.0);
float radius = 0.5 + 0.05 * sin(10.0 * atan(p.y, p.x) + t);
return length(p) - radius;
");
   ("Twister", "
// Inverted normals
vec3 p = vec3(x, y, z) - vec3(1.0);
float r = length(p.xy);
float theta = atan(p.y, p.x) + t + p.z * 3.0;
float nx = r * cos(theta);
float ny = r * sin(theta);
float funnel = p.z + 0.3 * r;
return sin(nx * 4.0) * cos(ny * 4.0) - funnel;
");
   ("Warp Tunnel", "
vec3 p = vec3(x, y, z) - vec3(1.0);
float r = length(vec2(p.x, p.y)) - 0.5;
return r + sin(p.z * 5.0 - t * 3.0) * 0.1;
");
   ("Sine Flow", "
// Inverted normals
return sin(x * 2.0 + t) * sin(y * 2.0 - t) * sin(z * 2.0 + t);
");
   ("Gyroid", "
return (
    sin(x * 10.0) * cos(y * 10.0) +
    sin(y * 10.0) * cos(z * 10.0) +
    sin(z * 10.0) * cos(x * 10.0)
);
");
   ("Gyroid Animated", "
return (
    sin(x * 10.0 + t) * cos(y * 10.0) +
    sin(y * 10.0 + t) * cos(z * 10.0) +
    sin(z * 10.0 + t) * cos(x * 10.0)
);
");
   ("Smoke", "
return 0.2 * (
    sin(x * 7.5 + t) +
    sin(-y * 5.7 - 1.3 * t) * sin(z * 3.3 + 2.3 * t) +
    sin((x + y) * 6.2 + 2.5 * t) * sin((y + z) * 4.4 - 0.7 * t)
);
");
   ("Mandelbulb", "
vec3 p = vec3(x, y, z) - vec3(1.0);
vec3 Z = p;
float dr = 1.0;
float r = 0.0;

for (int i = 0; i < 8; i++) {
    r = length(Z);
    float theta = acos(Z.z / r);
    float phi = atan(Z.y, Z.x);
    float s = step(r, 2.0);

    dr = mix(dr, pow(r, 7.0) * 8.0 * dr + 1.0, s);
    float zr = pow(r, 8.0);

    theta *= 8.0;
    phi *= 8.0;
    Z = mix(Z, zr * vec3(sin(theta + t) * cos(phi), sin(theta) * sin(phi), cos(theta)) + p, s);
}

return 0.5 * log(r) * r / dr * 10.0 + 1.0;
")].

(** [const palettes = [...]] (App.js, line 337). *)
Definition palettes : list string :=
  ["Viridis"; "Rainbow"; "Plasma"; "Hot"; "Gray"; "Smoke"; "White"].

(** The initial value of [options]. *)
Definition initial_options : Options :=
  {| distance := 1.0;
     extinctionCoefficient := 1.0;
     normalEpsilon := 0.01;
     useVolumetricDepthTest := false;
     useExtinctionCoefficient := true;
     useValueAsExtinctionCoefficient := false;
     usePointLights := false;
     useDirectionalLights := false;
     useRandomStart := true;
     renderMeanValue := false;
     invertNormals := false;
     renderNormals := false;
     raySteps := 64;
     functionPreset := "Pulsing Sphere";
     useCustomFunction := false;
     customFunction := None |}.

(** The state the constructor leaves behind. [uniforms0] stands for the
    uniform values the [VolumeRenderer] is created with; the constructor
    writes none of the numeric uniforms. The text area starts with the
    trimmed body of the preset named by [options.functionPreset]. *)
Definition initial_App (uniforms0 : uniform -> float) : App :=
  {| renderer_target := Canvas;
     pointLight_visible := false;
     pointLight_position := mkVector3 0 0 0;
     spinningCube_visible := false;
     spinningCube_rotation := mkVector3 0 0 0;
     lastTime := None;
     timescale := 1;
     uniforms := uniforms0;
     options := initial_options;
     glslTextarea :=
       match lookup (functionPreset initial_options) functionPresets with
       | Some body => trim body
       | None => ""
       end |}.

(** *** Handlers as state transformers that log their calls *)

Definition M (A : Type) : Type := App -> A * App * list call.

Definition ret {A : Type} (a : A) : M A := fun s => (a, s, []).

Definition bind {A B : Type} (m : M A) (k : A -> M B) : M B :=
  fun s =>
    let '(a, s1, l1) := m s in
    let '(b, s2, l2) := k a s1 in
    (b, s2, (l1 ++ l2)%list).

Notation "x <- m ;; k" := (bind m (fun x => k))
  (at level 61, m at next level, right associativity).
Notation "m ;; k" := (bind m (fun _ => k))
  (at level 61, right associativity).

Definition get : M App := fun s => (s, s, []).
Definition modify (f : App -> App) : M unit := fun s => (tt, f s, []).
Definition emit (c : call) : M unit := fun s => (tt, s, [c]).

Definition modify_options (f : Options -> Options) : M unit :=
  modify (fun s => set_options (f (options s)) s).

(** [this.#volumeRenderer.updateMaterial(options)]: the renderer is
    handed the options as they are at the time of the call. *)
Definition updateMaterial : M unit :=
  s <- get;; emit (UpdateMaterial (options s)).

(** Each control of the panel first stores the new value into the
    property it is bound to and then calls its [onChange] handler with
    that value; the handlers below start with that store. *)

(** The "Time Scale" slider, bound to [this.#timescale.value]; it has no
    handler. *)
Definition on_timescale (value : float) : M unit :=
  modify (set_timescale value).

(** The "Presets" drop-down (App.js, lines 305-312). Reading a name that
    is not a key of [functionPresets] yields [undefined], whose [trim]
    raises a [TypeError] that ends the handler. *)
Definition on_functionPreset (name : string) : M unit :=
  modify_options (set_functionPreset name);;
  match lookup name functionPresets with
  | None => ret tt
  | Some body =>
      let value := trim body in
      modify (set_glslTextarea value);;
      modify_options (set_customFunction (Some value));;
      modify_options (set_useCustomFunction true);;
      updateMaterial
  end.

(** The [input] listener of the text area (App.js, lines 314-321); the
    browser has replaced the text before the listener runs. *)
Definition on_glslTextarea_input (text : string) : M unit :=
  modify (set_glslTextarea text);;
  s <- get;;
  if useCustomFunction (options s) then
    modify_options (set_customFunction None);;
    modify_options (set_useCustomFunction false);;
    updateMaterial
  else ret tt.

(** The "Use Function" check box (App.js, lines 325-333). *)
Definition on_useCustomFunction (value : bool) : M unit :=
  modify_options (set_useCustomFunction value);;
  if value then
    s <- get;;
    modify_options (set_customFunction (Some (glslTextarea s)));;
    updateMaterial
  else
    modify_options (set_customFunction None);;
    updateMaterial.

(** [setPalette] (App.js, lines 338-344): the texture arrives later and
    is stored in the [palette] uniform, which is not a number. *)
Definition setPalette (name : string) : M unit :=
  emit (LoadTexture ("./images/palettes/" ++ toLowerCase name ++ ".png")).

(** A slider bound to the [value] of a uniform; no handler. *)
Definition on_slider (u : slider) (value : float) : M unit :=
  modify (set_uniform (slider_uniform u) value).

(** The "Extinction Coefficient" slider (App.js, lines 376-380). *)
Definition on_extinctionCoefficient (value : float) : M unit :=
  modify_options (set_extinctionCoefficient value);;
  modify_options (set_distance (3.912 / value));;
  modify (set_uniform u_extinctionCoefficient value).

(** The "Visible Range" slider (App.js, lines 384-388). *)
Definition on_distance (value : float) : M unit :=
  modify_options (set_distance value);;
  modify_options (set_extinctionCoefficient (3.912 / value));;
  modify (set_uniform u_extinctionCoefficient (3.912 / value)).

(** The check boxes of "Shader Options" (App.js, lines 399-454): all of
    them rebuild the material; "Depth Test" first shows or hides the
    spinning cube, "Point Lights" the point light. *)
Definition on_flag (f : shader_flag) (value : bool) : M unit :=
  modify_options (set_flag f value);;
  match f with
  | UseVolumetricDepthTest => modify (set_spinningCube_visible value)
  | UsePointLights => modify (set_pointLight_visible value)
  | _ => ret tt
  end;;
  updateMaterial.

(** The "Ray Steps" slider (App.js, lines 458-462). *)
Definition on_raySteps (value : float) : M unit :=
  modify_options (set_raySteps value);;
  updateMaterial.

(** [#handleResize] (App.js, lines 491-499), given the inner size of
    the window. *)
Definition handleResize (innerWidth innerHeight : float) : M unit :=
  emit (SetSize innerWidth innerHeight);;
  emit (TargetSetSize innerWidth innerHeight).

(** *** The per-frame driver *)

Definition setRenderTarget (target : render_target) : M unit :=
  modify (set_renderer_target target).

(** [renderer.render(scene, camera)] draws into the target that is
    current at that moment. *)
Definition render : M unit :=
  s <- get;; emit (Render (renderer_target s)).

(** The [dt] constant of [#update] (App.js, line 503). *)
Definition delta_time (lastTime : option float) (time : float) : float :=
  Math_min [1; Math_max [1e-6;
                         match lastTime with
                         | None => 0
                         | Some last => (time - last) / 1000
                         end]].

Section Driver.

(** [Math.sin] and [Math.cos], which the host implements. *)
Variables Math_sin Math_cos : float -> float.

(** [#update(time)] (App.js, lines 501-529); [random] is the value
    [Math.random()] returns in this frame. *)
Definition update (time random : float) : M unit :=
  s <- get;;
  let dt := delta_time (lastTime s) time in
  modify (set_lastTime (Some time));;
  s <- get;;
  modify (set_uniform u_time (uniforms s u_time + dt * timescale s));;
  modify (set_uniform u_random random);;
  modify (set_pointLight_position
            (mkVector3 (Math_sin (time * 0.001) * 1.5) 0.5
                       (Math_cos (time * 0.001) * 1.5)));;
  emit (OrbitControlsUpdate dt);;
  s <- get;;
  (if spinningCube_visible s then
     modify (set_spinningCube_rotation
               (mkVector3 (vx (spinningCube_rotation s) + dt * 0.2)
                          (vy (spinningCube_rotation s) + dt * 0.1)
                          (vz (spinningCube_rotation s))));;
     setRenderTarget DepthTarget;;
     render
   else ret tt);;
  setRenderTarget Canvas;;
  render.

(** *** Everything that can happen to a constructed application *)

Inductive event : Type :=
  | Frame (time random : float)
  | Resize (innerWidth innerHeight : float)
  | TimeScale (value : float)
  | FunctionPreset (name : string)
  | TextareaInput (text : string)
  | UseCustomFunction (value : bool)
  | Palette (name : string)
  | Slider (u : slider) (value : float)
  | ExtinctionCoefficient (value : float)
  | Distance (value : float)
  | ShaderFlag (f : shader_flag) (value : bool)
  | RaySteps (value : float).

Definition handle (e : event) : M unit :=
  match e with
  | Frame time random => update time random
  | Resize w h => handleResize w h
  | TimeScale value => on_timescale value
  | FunctionPreset name => on_functionPreset name
  | TextareaInput text => on_glslTextarea_input text
  | UseCustomFunction value => on_useCustomFunction value
  | Palette name => setPalette name
  | Slider u value => on_slider u value
  | ExtinctionCoefficient value => on_extinctionCoefficient value
  | Distance value => on_distance value
  | ShaderFlag f value => on_flag f value
  | RaySteps value => on_raySteps value
  end.

(** The state after an event, and the calls it made. *)
Definition step (e : event) (s : App) : App * list call :=
  let '(_, s', calls) := handle e s in (s', calls).

Fixpoint run (events : list event) (s : App) : App * list call :=
  match events with
  | [] => (s, [])
  | e :: rest =>
      let '(s1, calls1) := step e s in
      let '(s2, calls2) := run rest s1 in
      (s2, (calls1 ++ calls2)%list)
  end.

End Driver.

(** *** Construction and start-up *)

(** The arrow function handed to [updateAtlasTexture] (App.js, lines
    129-135), with the [visibilityData] and [max] it captures. The
    index is computed on integers; on the tuples of the grid, which are
    what the atlas fill ranges over, JavaScript's evaluation on Numbers
    yields the same integer ([ExactFacts.flat_index_number_exact]). *)
Definition sampleFn (visibilityData : list float) (max : float) : sampler :=
  fun xi yi zi x y z t =>
    let index := Index.flat_index sootVisibilityMeta xi yi zi t in
    (ToNumber (typed_get visibilityData index) / max) + 0.3.

(** The atlas block of the constructor (App.js, lines 119-136): nothing
    when [visibilityData] is [null]; [None] stands for the [TypeError]
    of [reduce] on an empty array. *)
Definition fill_atlas (visibilityData : option (list float))
  : option (list call) :=
  match visibilityData with
  | None => Some []
  | Some data =>
      match reduce_max data with
      | None => None
      | Some max =>
          Some [CreateAtlasTexture (grid_size sootVisibilityMeta)
                                   (grid_offset sootVisibilityMeta)
                                   (voxel_size sootVisibilityMeta)
                                   (time_count sootVisibilityMeta);
                UpdateAtlasTexture (sampleFn data max)]
      end
  end.

(** What the host supplies to a starting application: the default
    uniforms of the volume renderer and the inner size of the window. *)
Record Host : Type := mkHost {
  volumeRenderer_uniforms : uniform -> float;
  innerWidth : float;
  innerHeight : float
}.

(** [new App(visibilityData)]: the constructed application and the calls
    made, in order, on the volume renderer, the texture loader and the
    renderer; [None] when the constructor throws. The scene graph and
    the panel are assembled in between without any such call. *)
Definition new_App (host : Host) (visibilityData : option (list float))
  : option (App * list call) :=
  match fill_atlas visibilityData with
  | None => None
  | Some atlas_calls =>
      let '(_, s, calls) :=
        (setPalette (hd "" palettes);;
         modify (set_lastTime None);;
         emit SetAnimationLoop;;
         handleResize (innerWidth host) (innerHeight host))
          (initial_App (volumeRenderer_uniforms host)) in
      Some (s, (atlas_calls ++ calls)%list)
  end.

(** A settled promise. *)
Inductive promise (A : Type) : Type :=
  | Fulfilled (value : A)
  | Rejected.
Arguments Fulfilled {A} _.
Arguments Rejected {A}.

(** [p.then(f)] for an [f] that returns a promise or a plain value
    wrapped into one: a rejection skips [f]. *)
Definition then_ {A B : Type} (p : promise A) (f : A -> promise B)
  : promise B :=
  match p with
  | Fulfilled value => f value
  | Rejected => Rejected
  end.

(** The third [then] of [_init] (App.js, lines 29-35): every byte is
    multiplied by the value scale and stored into a [Float32Array]. *)
Definition scale_bytes (bytes : list byte) : list float :=
  map (fun v => Math_fround (float_of_byte v * value_scale sootVisibilityMeta))
      bytes.

Section Loader.

Variables Response Blob : Type.

(** The network and the decompression stream, as far as [_init] sees
    them: each stage settles with a value or rejects. *)
Record Network : Type := mkNetwork {
  fetch : string -> promise Response;
  response_blob : Response -> promise Blob;
  gunzip_arrayBuffer : Blob -> promise (list byte)
}.

(** The promise chain of [_init] up to the decompressed bytes. *)
Definition fetch_bytes (net : Network) : promise (list byte) :=
  then_ (then_ (fetch net "soot_visibility.bytes") (response_blob net))
        (gunzip_arrayBuffer net).

(** [visibilityData] when the [finally] callback runs: still [null]
    unless the third [then] ran. *)
Definition loaded_visibilityData (net : Network) : option (list float) :=
  match fetch_bytes net with
  | Fulfilled bytes => Some (scale_bytes bytes)
  | Rejected => None
  end.

(** [App._init] once the window has loaded: the [finally] callback
    constructs the application whatever became of the chain. *)
Definition _init (net : Network) (host : Host) : option (App * list call) :=
  new_App host (loaded_visibilityData net).

End Loader.

Arguments mkNetwork {Response Blob} _ _ _.
Arguments fetch {Response Blob} _ _.
Arguments response_blob {Response Blob} _ _.
Arguments gunzip_arrayBuffer {Response Blob} _ _.
Arguments fetch_bytes {Response Blob} _.
Arguments loaded_visibilityData {Response Blob} _.
Arguments _init {Response Blob} _ _.

End App.

(** ** Auxiliary notions on the specification of binary64 *)

Module SF.

Open Scope Z_scope.

(** What [binary_round_aux] returns, up to the choice between a
    truncated mantissa and its successor. *)
Definition rounded (s : bool) (m3 e3 : Z) : spec_float :=
  match m3 with
  | Z0 => S754_zero s
  | Zpos m => if e3 <=? emax - prec then S754_finite s m e3
              else S754_infinity s
  | Zneg _ => S754_nan
  end.

(** Zeros and finite numbers. *)
Definition SFfinite (x : spec_float) : bool :=
  match x with
  | S754_zero _ | S754_finite _ _ _ => true
  | _ => false
  end.

End SF.

(** ** Notions the properties are stated with *)

Module Spec.

Open Scope float_scope.

(** The usual clamp of [x] to the interval from [lo] to [hi]. *)
Definition clamp (x lo hi : float) : float :=
  if x <? lo then lo else if hi <? x then hi else x.

(** The seconds elapsed since the previous frame, 0 when there was
    none. *)
Definition elapsed_seconds (lastTime : option float) (time : float) : float :=
  match lastTime with
  | None => 0
  | Some last => (time - last) / 1000
  end.

(** The state a handler leaves behind, and the calls it makes. *)
Definition exec {A : Type} (m : App.M A) (s : App.App) : App.App :=
  snd (fst (m s)).

Definition calls_of {A : Type} (m : App.M A) (s : App.App)
  : list App.call :=
  snd (m s).

(** The targets drawn into, in order. *)
Definition renders (calls : list App.call) : list App.render_target :=
  flat_map (fun c => match c with
                     | App.Render target => [target]
                     | _ => []
                     end) calls.

(** Calls that create or fill the atlas texture. *)
Definition is_atlas_call (c : App.call) : bool :=
  match c with
  | App.CreateAtlasTexture _ _ _ _ | App.UpdateAtlasTexture _ => true
  | _ => false
  end.

(** [options.useCustomFunction] is true exactly when
    [options.customFunction] is not [null]. *)
Definition custom_function_invariant (o : App.Options) : Prop :=
  App.useCustomFunction o = true <-> App.customFunction o <> None.

(** Coefficient to distance and back, through the two handlers of the
    "Opacity" folder: the coefficient handler stores the distance, which
    is then fed to the distance handler. *)
Definition coefficient_round_trip (c : float) (s : App.App) : float :=
  let s1 := exec (App.on_extinctionCoefficient c) s in
  let s2 := exec (App.on_distance (App.distance (App.options s1))) s1 in
  App.extinctionCoefficient (App.options s2).

(** The number [k/100], as a slider with step 0.01 delivers it. *)
Definition slider_value (k : Z) : float := JS.float_of_Z k / 100.

(** [r] is [c] or one of the two binary64 numbers next to it. *)
Definition within_one_ulp (r c : float) : bool :=
  Leibniz.eqb r c || Leibniz.eqb r (next_up c) || Leibniz.eqb r (next_down c).

(** [check k] for the [n] integers from [k] on. *)
Fixpoint all_from (n : nat) (k : Z) (check : Z -> bool) : bool :=
  match n with
  | O => true
  | S n' => check k && all_from n' (k + 1)%Z check
  end.

(** Events the host and the panel can deliver: frame timestamps are
    finite numbers, and the "Time Scale" slider ranges over [0, 8]. *)
Definition admissible (e : App.event) : Prop :=
  match e with
  | App.Frame time _ => is_finite time = true
  | App.TimeScale value => (0 <=? value) = true /\ (value <=? 8) = true
  | _ => True
  end.

(** What the proof of monotonicity maintains: the time uniform is
    neither NaN nor -Infinity, the previous timestamp is finite, the
    time scale is not negative. *)
Definition steady (s : App.App) : Prop :=
  (neg_infinity <? App.uniforms s App.u_time) = true /\
  match App.lastTime s with
  | None => True
  | Some last => is_finite last = true
  end /\
  (0 <=? App.timescale s) = true.

(** *** Sample inputs *)

(** A network on which every stage rejects, one that delivers the two
    bytes 8 and 16, a host with all uniforms at 0, and stand-ins for
    [Math.sin] and [Math.cos]. *)
Definition no_network : App.Network unit unit :=
  App.mkNetwork (fun _ => App.Rejected) (fun _ => App.Rejected)
                (fun _ => App.Rejected).

Definition two_byte_network : App.Network unit unit :=
  App.mkNetwork (fun _ => App.Fulfilled tt) (fun _ => App.Fulfilled tt)
                (fun _ => App.Fulfilled ["008"%byte; "016"%byte]).

Definition small_host : App.Host := App.mkHost (fun _ => 0) 800 600.

Definition no_sin : float -> float := fun _ => 0.
Definition no_cos : float -> float := fun _ => 1.

End Spec.

(** ** Further notions *)

Module Notions.

Import JS App Spec.
Open Scope float_scope.

(** A raw byte as it is stored into [visibilityData]. *)
Definition scaled (b : byte) : float :=
  Math_fround (float_of_byte b * value_scale sootVisibilityMeta).

(** The byte with the given number, [x00] beyond 255. *)
Definition byte_of_Z (k : Z) : byte :=
  match Byte.of_N (Z.to_N k) with
  | Some b => b
  | None => x00
  end.

(** [check] on every pair of bytes. *)
Definition all_byte_pairs (check : byte -> byte -> bool) : bool :=
  all_from 256 0
    (fun i => all_from 256 0 (fun j => check (byte_of_Z i) (byte_of_Z j))).

(** The [index] constant of the arrow function passed to
    [updateAtlasTexture] (App.js, lines 130-133) as JavaScript evaluates
    it: on Numbers, every product and every sum rounded to binary64. *)
Definition flat_index_number (meta : VolumeMeta) (xi yi zi t : float)
  : float :=
  yi +
  zi * float_of_Z (vy (grid_size meta)) +
  xi * float_of_Z (vy (grid_size meta)) * float_of_Z (vz (grid_size meta)) +
  t * float_of_Z (vx (grid_size meta)) * float_of_Z (vy (grid_size meta)) *
  float_of_Z (vz (grid_size meta)).

(** The order of index tuples in which the time index counts most, then
    x, then z, and y least. *)
Definition tuple_before (xi yi zi t xi' yi' zi' t' : Z) : Prop :=
  (t < t' \/
   (t = t' /\
    (xi < xi' \/
     (xi = xi' /\ (zi < zi' \/ (zi = zi' /\ yi < yi'))))))%Z.

Definition is_frame (e : event) : bool :=
  match e with
  | Frame _ _ => true
  | _ => false
  end.

Definition is_timescale_event (e : event) : bool :=
  match e with
  | TimeScale _ => true
  | _ => false
  end.

Definition is_opacity_event (e : event) : bool :=
  match e with
  | ExtinctionCoefficient _ | Distance _ => true
  | _ => false
  end.

(** The options a handler hands to [updateMaterial], in order. *)
Definition material_calls (calls : list call) : list Options :=
  flat_map (fun c => match c with
                     | UpdateMaterial o => [o]
                     | _ => []
                     end) calls.

(** The options whose change is followed by [updateMaterial] in the
    source: the check boxes of "Shader Options", the ray steps, and the
    custom function with its switch. *)
Definition shader_options (o : Options)
  : list bool * float * option string :=
  ([useVolumetricDepthTest o; useExtinctionCoefficient o;
    useValueAsExtinctionCoefficient o; usePointLights o;
    useDirectionalLights o; useRandomStart o; renderMeanValue o;
    invertNormals o; renderNormals o; useCustomFunction o],
   raySteps o, customFunction o).

(** The custom function in use is the text shown in the text area. *)
Definition custom_function_shown (s : App) : Prop :=
  customFunction (options s) =
  if useCustomFunction (options s) then Some (glslTextarea s) else None.

(** The coefficient uniform follows [options.extinctionCoefficient], and
    one of coefficient and distance is 3.912 divided by the other. *)
Definition opacity_linked (s : App) : Prop :=
  uniforms s u_extinctionCoefficient = extinctionCoefficient (options s) /\
  (distance (options s) = 3.912 / extinctionCoefficient (options s) \/
   extinctionCoefficient (options s) = 3.912 / distance (options s)).

Definition is_canvas (target : render_target) : bool :=
  match target with
  | Canvas => true
  | DepthTarget => false
  end.

(** At most zero, and not NaN. *)
Definition SFnonpos (x : spec_float) : bool := SFleb x (S754_zero false).

End Notions.

(** * Part II: properties *)

(** ** The flat index is a bijection *)

Module IndexFacts.

Import Index.
Open Scope Z_scope.

Lemma flat_index_nested (meta : VolumeMeta) (xi yi zi t : Z) :
  flat_index meta xi yi zi t =
  yi + vy (grid_size meta) *
         (zi + vz (grid_size meta) * (xi + vx (grid_size meta) * t)).
Proof. unfold flat_index. ring. Qed.

(** A digit [r] below the base [b] is recovered by [mod], the rest by
    division. *)
Lemma digit_split (b r q : Z) :
  0 <= r < b -> (r + b * q) mod b = r /\ (r + b * q) / b = q.
Proof.
  intros Hr.
  assert (Hb : b <> 0) by lia.
  replace (r + b * q) with (r + q * b) by ring.
  split.
  - rewrite Z.mod_add by exact Hb. now apply Z.mod_small.
  - rewrite Z.div_add by exact Hb.
    rewrite (Z.div_small r b) by exact Hr. lia.
Qed.

Lemma unflatten_flat_index (meta : VolumeMeta) (xi yi zi t : Z) :
  in_grid meta xi yi zi t ->
  unflatten meta (flat_index meta xi yi zi t) = (xi, yi, zi, t).
Proof.
  intros (Hx & Hy & Hz & Ht).
  rewrite flat_index_nested. unfold unflatten.
  set (gx := vx (grid_size meta)) in *.
  set (gy := vy (grid_size meta)) in *.
  set (gz := vz (grid_size meta)) in *.
  destruct (digit_split gy yi (zi + gz * (xi + gx * t)) Hy) as [My Dy].
  destruct (digit_split gz zi (xi + gx * t) Hz) as [Mz Dz].
  destruct (digit_split gx xi t Hx) as [Mx Dx].
  rewrite <- (Z.div_div _ (gy * gz) gx) by nia.
  rewrite <- !(Z.div_div _ gy gz) by lia.
  rewrite My, Dy, Mz, Dz, Mx, Dx. reflexivity.
Qed.

Lemma flat_index_range (meta : VolumeMeta) (xi yi zi t : Z) :
  in_grid meta xi yi zi t ->
  0 <= flat_index meta xi yi zi t < sample_count meta.
Proof.
  intros (Hx & Hy & Hz & Ht).
  rewrite flat_index_nested. unfold sample_count.
  set (gx := vx (grid_size meta)) in *.
  set (gy := vy (grid_size meta)) in *.
  set (gz := vz (grid_size meta)) in *.
  set (tc := time_count meta) in *.
  assert (H1 : 0 <= xi + gx * t <= gx * tc - 1) by nia.
  assert (H2 : 0 <= zi + gz * (xi + gx * t) <= gz * (gx * tc) - 1) by nia.
  split; [nia|].
  replace (gx * gy * gz * tc) with (gy * (gz * (gx * tc))) by ring.
  nia.
Qed.

Lemma flat_index_unflatten (meta : VolumeMeta) (i : Z) :
  positive_dims meta ->
  0 <= i < sample_count meta ->
  match unflatten meta i with
  | (xi, yi, zi, t) =>
      in_grid meta xi yi zi t /\ flat_index meta xi yi zi t = i
  end.
Proof.
  intros (Px & Py & Pz & Pt) Hi. unfold unflatten, in_grid.
  rewrite flat_index_nested. unfold sample_count in Hi.
  set (gx := vx (grid_size meta)) in *.
  set (gy := vy (grid_size meta)) in *.
  set (gz := vz (grid_size meta)) in *.
  set (tc := time_count meta) in *.
  assert (Hyz : 0 < gy * gz) by nia.
  assert (Hyzx : 0 < gy * gz * gx) by nia.
  repeat split; try (apply Z.mod_pos_bound; assumption).
  - apply Z.div_pos; lia.
  - apply Z.div_lt_upper_bound; [lia|].
    replace (gy * gz * gx * tc) with (gx * gy * gz * tc) by ring. lia.
  - rewrite <- (Z.div_div _ (gy * gz) gx) by lia.
    rewrite <- !(Z.div_div _ gy gz) by lia.
    set (a := i / gy). set (b := a / gz).
    pose proof (Z.div_mod b gx ltac:(lia)) as Eb.
    pose proof (Z.div_mod a gz ltac:(lia)) as Ea.
    pose proof (Z.div_mod i gy ltac:(lia)) as Ei.
    fold a in Ei. fold b in Ea.
    replace (b mod gx + gx * (b / gx)) with b by lia.
    replace (a mod gz + gz * b) with a by lia.
    lia.
Qed.

(** C1: for strictly positive grid dimensions and time count, the flat
    index maps the index tuples of the grid one-to-one onto
    [0, gx*gy*gz*tc): it stays in that range, no two distinct tuples
    share a flat index, and every flat index of the range is the image
    of a tuple of the grid. *)
Theorem flat_index_bijection (meta : VolumeMeta) :
  positive_dims meta ->
  (forall xi yi zi t, in_grid meta xi yi zi t ->
     0 <= flat_index meta xi yi zi t < sample_count meta) /\
  (forall xi yi zi t xi' yi' zi' t',
     in_grid meta xi yi zi t -> in_grid meta xi' yi' zi' t' ->
     flat_index meta xi yi zi t = flat_index meta xi' yi' zi' t' ->
     (xi, yi, zi, t) = (xi', yi', zi', t')) /\
  (forall i, 0 <= i < sample_count meta ->
     exists xi yi zi t,
       in_grid meta xi yi zi t /\ flat_index meta xi yi zi t = i).
Proof.
  intros Hpos. split; [|split].
  - intros; now apply flat_index_range.
  - intros xi yi zi t xi' yi' zi' t' H H' E.
    rewrite <- (unflatten_flat_index meta xi yi zi t H).
    rewrite <- (unflatten_flat_index meta xi' yi' zi' t' H').
    now rewrite E.
  - intros i Hi.
    pose proof (flat_index_unflatten meta i Hpos Hi) as U.
    destruct (unflatten meta i) as [[[xi yi] zi] t].
    now exists xi, yi, zi, t.
Qed.

Lemma flat_index_bijection_witness :
  positive_dims sootVisibilityMeta /\
  ((forall xi yi zi t, in_grid sootVisibilityMeta xi yi zi t ->
      0 <= flat_index sootVisibilityMeta xi yi zi t
        < sample_count sootVisibilityMeta) /\
   (forall xi yi zi t xi' yi' zi' t',
      in_grid sootVisibilityMeta xi yi zi t ->
      in_grid sootVisibilityMeta xi' yi' zi' t' ->
      flat_index sootVisibilityMeta xi yi zi t =
      flat_index sootVisibilityMeta xi' yi' zi' t' ->
      (xi, yi, zi, t) = (xi', yi', zi', t')) /\
   (forall i, 0 <= i < sample_count sootVisibilityMeta ->
      exists xi yi zi t,
        in_grid sootVisibilityMeta xi yi zi t /\
        flat_index sootVisibilityMeta xi yi zi t = i)).
Proof.
  assert (P : positive_dims sootVisibilityMeta)
    by (repeat split; reflexivity).
  split; [exact P | exact (flat_index_bijection sootVisibilityMeta P)].
Defined.

End IndexFacts.

(** ** Facts about binary64 numbers

    The primitive operations are specified by the functions of
    [SpecFloat] on [spec_float]; the facts below are proved on that
    specification and carried over to [float]. *)

Module FloatFacts.

Import SF.
Open Scope Z_scope.

(** *** The order of [SFcompare] *)

Lemma Pos_compare_cont_Eq_refl (m : positive) : Pos.compare_cont Eq m m = Eq.
Proof. exact (Pos.compare_refl m). Qed.

Lemma SFcompare_refl (x : spec_float) :
  x <> S754_nan -> SFcompare x x = Some Eq.
Proof.
  destruct x as [s|s| |s m e]; intros H; try congruence;
    destruct s; simpl; try reflexivity;
    rewrite Z.compare_refl, Pos_compare_cont_Eq_refl; reflexivity.
Qed.

Lemma SFcompare_None (x y : spec_float) :
  SFcompare x y = None -> x = S754_nan \/ y = S754_nan.
Proof.
  destruct x as [sx|sx| |sx mx ex], y as [sy|sy| |sy my ey]; simpl;
    intros H; try discriminate; auto.
Qed.

Lemma SFcompare_antisym (x y : spec_float) :
  SFcompare y x = option_map CompOpp (SFcompare x y).
Proof.
  destruct x as [sx|sx| |sx mx ex], y as [sy|sy| |sy my ey]; simpl;
    try reflexivity;
    try (destruct sx; reflexivity);
    try (destruct sy; reflexivity);
    try (destruct sx, sy; reflexivity).
  fold (Pos.compare my mx). fold (Pos.compare mx my).
  rewrite (Z.compare_antisym ey ex), (Pos.compare_antisym my mx).
  destruct sx, sy; simpl; try reflexivity;
    destruct (ey ?= ex)%Z; simpl; try reflexivity;
    destruct (my ?= mx)%positive; reflexivity.
Qed.

Lemma SFcompare_Eq (x y : spec_float) :
  SFcompare x y = Some Eq ->
  x = y \/ (exists sx sy, x = S754_zero sx /\ y = S754_zero sy).
Proof.
  destruct x as [sx|sx| |sx mx ex], y as [sy|sy| |sy my ey]; simpl;
    intros H; try discriminate;
    try (destruct sx; discriminate);
    try (destruct sy; discriminate).
  - right. eauto.
  - left. destruct sx, sy; try discriminate; reflexivity.
  - left. fold (Pos.compare mx my) in H.
    destruct sx, sy; try discriminate;
      destruct (Z.compare_spec ex ey) as [E|L|G]; try discriminate; subst;
      destruct (Pos.compare_spec mx my) as [E'|L'|G']; try discriminate;
        subst; reflexivity.
Qed.

(** Splits the comparisons of exponents and mantissas that [SFcompare]
    leaves behind. *)
Ltac sf_cases :=
  repeat match goal with
         | H : context [Pos.compare_cont Eq ?a ?b] |- _ =>
             fold (Pos.compare a b) in H
         | |- context [Pos.compare_cont Eq ?a ?b] => fold (Pos.compare a b)
         end;
  repeat match goal with
         | H : context [Z.compare ?a ?b] |- _ =>
             destruct (Z.compare_spec a b); simpl in H; try discriminate H
         | |- context [Z.compare ?a ?b] =>
             destruct (Z.compare_spec a b); simpl
         | H : context [Pos.compare ?a ?b] |- _ =>
             destruct (Pos.compare_spec a b); simpl in H; try discriminate H
         | |- context [Pos.compare ?a ?b] =>
             destruct (Pos.compare_spec a b); simpl
         end;
  try reflexivity; try discriminate; try lia.

Lemma SFleb_trans (x y z : spec_float) :
  SFleb x y = true -> SFleb y z = true -> SFleb x z = true.
Proof.
  unfold SFleb.
  destruct x as [sx|sx| |sx mx ex], y as [sy|sy| |sy my ey],
           z as [sz|sz| |sz mz ez]; simpl; try discriminate;
    try reflexivity;
    try destruct sx; try destruct sy; try destruct sz; simpl;
    try discriminate; try reflexivity; intros H1 H2; sf_cases.
Qed.

Lemma SFltb_leb_trans (x y z : spec_float) :
  SFltb x y = true -> SFleb y z = true -> SFltb x z = true.
Proof.
  unfold SFleb, SFltb.
  destruct x as [sx|sx| |sx mx ex], y as [sy|sy| |sy my ey],
           z as [sz|sz| |sz mz ez]; simpl; try discriminate;
    try reflexivity;
    try destruct sx; try destruct sy; try destruct sz; simpl;
    try discriminate; try reflexivity; intros H1 H2; sf_cases.
Qed.

(** *** Digits and powers of two *)

Lemma digits2_pos_bounds (p : positive) :
  2 ^ (Zpos (digits2_pos p) - 1) <= Zpos p < 2 ^ Zpos (digits2_pos p).
Proof.
  induction p as [p IH|p IH|].
  - simpl digits2_pos. rewrite Pos2Z.inj_succ.
    replace (Z.succ (Zpos (digits2_pos p)) - 1) with
      (Z.succ (Zpos (digits2_pos p) - 1)) by lia.
    rewrite !Z.pow_succ_r by lia. lia.
  - simpl digits2_pos. rewrite Pos2Z.inj_succ.
    replace (Z.succ (Zpos (digits2_pos p)) - 1) with
      (Z.succ (Zpos (digits2_pos p) - 1)) by lia.
    rewrite !Z.pow_succ_r by lia. lia.
  - simpl. lia.
Qed.

Lemma Zdigits2_bounds (m : Z) :
  0 < m -> 2 ^ (Zdigits2 m - 1) <= m < 2 ^ Zdigits2 m.
Proof.
  destruct m as [|p|p]; try lia. intros _. apply digits2_pos_bounds.
Qed.

Lemma Zdigits2_nonneg (m : Z) : 0 <= Zdigits2 m.
Proof. destruct m; simpl; lia. Qed.

Lemma Zdigits2_pos (m : Z) : 0 < m -> 0 < Zdigits2 m.
Proof. destruct m; simpl; lia. Qed.

(** A positive number below [2 ^ d] has at most [d] digits. *)
Lemma Zdigits2_le_of_lt (m d : Z) :
  0 < m -> 0 <= d -> m < 2 ^ d -> Zdigits2 m <= d.
Proof.
  intros Hm Hd Hlt.
  destruct (Z.le_gt_cases (Zdigits2 m) d) as [L|G]; [exact L|exfalso].
  pose proof (Zdigits2_bounds m Hm) as [B _].
  assert (2 ^ d <= 2 ^ (Zdigits2 m - 1)) by (apply Z.pow_le_mono_r; lia).
  lia.
Qed.

Lemma Zdigits2_mono (m n : Z) :
  0 < m -> m <= n -> Zdigits2 m <= Zdigits2 n.
Proof.
  intros Hm Hmn.
  apply Zdigits2_le_of_lt; [exact Hm | apply Zdigits2_nonneg |].
  pose proof (Zdigits2_bounds n ltac:(lia)). lia.
Qed.

Lemma Zdigits2_mul_pow2 (m k : Z) :
  0 < m -> 0 <= k -> Zdigits2 (m * 2 ^ k) = Zdigits2 m + k.
Proof.
  intros Hm Hk.
  pose proof (Zdigits2_bounds m Hm) as [Lo Hi].
  pose proof (Zdigits2_pos m Hm) as Dm.
  assert (P : 0 < 2 ^ k) by (apply Z.pow_pos_nonneg; lia).
  assert (Hmk : 0 < m * 2 ^ k) by nia.
  apply Z.le_antisymm.
  - apply Zdigits2_le_of_lt; [exact Hmk | lia |].
    rewrite Z.pow_add_r by lia. nia.
  - destruct (Z.le_gt_cases (Zdigits2 m + k) (Zdigits2 (m * 2 ^ k)))
      as [L|G]; [exact L|exfalso].
    pose proof (Zdigits2_bounds _ Hmk) as [_ Hi'].
    pose proof (Zdigits2_pos _ Hmk) as Dmk.
    assert (2 ^ Zdigits2 (m * 2 ^ k) <= 2 ^ (Zdigits2 m - 1 + k))
      by (apply Z.pow_le_mono_r; lia).
    rewrite Z.pow_add_r in H by lia. nia.
Qed.

Lemma iter_xO_pow2 (m d : positive) :
  Zpos (Pos.iter xO m d) = Zpos m * 2 ^ Zpos d.
Proof.
  induction d as [|d IH] using Pos.peano_ind.
  - change (Pos.iter xO m 1) with (m~0)%positive. change (2 ^ 1) with 2.
    lia.
  - rewrite Pos.iter_succ, Pos2Z.inj_xO, IH, Pos2Z.inj_succ.
    rewrite Z.pow_succ_r by lia. ring.
Qed.

(** *** Shifting a mantissa to the right *)

Lemma shr_1_m (r : shr_record) :
  0 <= shr_m r -> shr_m (shr_1 r) = shr_m r / 2.
Proof.
  destruct r as [m b s]. simpl shr_m. intros Hm.
  rewrite <- Z.div2_div.
  destruct m as [|[p|p|]|p]; try lia; reflexivity.
Qed.

Lemma iter_shr_1_m (p : positive) (r : shr_record) :
  0 <= shr_m r -> shr_m (iter_pos shr_1 p r) = shr_m r / 2 ^ Zpos p.
Proof.
  revert r. induction p as [p IH|p IH|]; intros r Hr; simpl iter_pos;
    try assert (P : 0 < 2 ^ Zpos p) by (apply Z.pow_pos_nonneg; lia).
  - assert (H1 : 0 <= shr_m (shr_1 r))
      by (rewrite shr_1_m by exact Hr; apply Z.div_pos; lia).
    assert (H2 : 0 <= shr_m (iter_pos shr_1 p (shr_1 r)))
      by (rewrite IH by exact H1; apply Z.div_pos; [lia|];
          apply Z.pow_pos_nonneg; lia).
    rewrite (IH _ H2), (IH _ H1), (shr_1_m _ Hr).
    rewrite !Z.div_div by lia.
    replace (2 ^ Zpos p~1) with (2 * (2 ^ Zpos p * 2 ^ Zpos p));
      [reflexivity|].
    rewrite <- Z.pow_add_r, <- Z.pow_succ_r by lia. f_equal. lia.
  - assert (H1 : 0 <= shr_m (iter_pos shr_1 p r))
      by (rewrite IH by exact Hr; apply Z.div_pos; [lia|];
          apply Z.pow_pos_nonneg; lia).
    rewrite (IH _ H1), (IH _ Hr).
    rewrite Z.div_div by lia.
    replace (2 ^ Zpos p~0) with (2 ^ Zpos p * 2 ^ Zpos p);
      [reflexivity|].
    rewrite <- Z.pow_add_r by lia. f_equal. lia.
  - rewrite shr_1_m by exact Hr. reflexivity.
Qed.

Lemma shr_spec (r : shr_record) (e n : Z) :
  0 <= shr_m r ->
  shr_m (fst (shr r e n)) = shr_m r / 2 ^ Z.max 0 n /\
  snd (shr r e n) = e + Z.max 0 n.
Proof.
  intros Hr. destruct n as [|p|p]; simpl shr; simpl fst; simpl snd.
  - simpl. rewrite Z.div_1_r. lia.
  - rewrite iter_shr_1_m by exact Hr.
    replace (Z.max 0 (Zpos p)) with (Zpos p) by lia. split; reflexivity.
  - replace (Z.max 0 (Zneg p)) with 0 by lia. simpl.
    rewrite Z.div_1_r. lia.
Qed.

Lemma shr_m_of_loc (m : Z) (l : location) :
  shr_m (shr_record_of_loc m l) = m.
Proof. destruct l as [|[ | | ]]; reflexivity. Qed.

Lemma shr_fexp_spec (m e : Z) (l : location) :
  0 <= m ->
  let e' := Z.max e (fexp prec emax (Zdigits2 m + e)) in
  shr_m (fst (shr_fexp prec emax m e l)) = m / 2 ^ (e' - e) /\
  snd (shr_fexp prec emax m e l) = e'.
Proof.
  intros Hm e'. unfold shr_fexp.
  destruct (shr_spec (shr_record_of_loc m l) e
              (fexp prec emax (Zdigits2 m + e) - e)) as [A B].
  - now rewrite shr_m_of_loc.
  - rewrite shr_m_of_loc in A. rewrite A, B.
    replace (Z.max 0 (fexp prec emax (Zdigits2 m + e) - e)) with (e' - e)
      by (unfold e'; lia).
    split; [reflexivity | lia].
Qed.

Lemma round_nearest_even_bounds (m : Z) (l : location) :
  m <= round_nearest_even m l <= m + 1.
Proof.
  destruct l as [|[ | | ]]; simpl; try lia.
  destruct (Z.even m); lia.
Qed.

(** [binary_round_aux] truncates the mantissa to the exponent [e1] of
    its format, keeps the truncated mantissa [m1] or takes its
    successor, and shifts once more when that successor gained a
    digit. *)
Lemma binary_round_aux_spec (s : bool) (M E : Z) (l : location) :
  0 <= M ->
  let e1 := Z.max E (fexp prec emax (Zdigits2 M + E)) in
  let m1 := M / 2 ^ (e1 - E) in
  exists m2,
    m1 <= m2 <= m1 + 1 /\
    let e3 := Z.max e1 (fexp prec emax (Zdigits2 m2 + e1)) in
    binary_round_aux prec emax s M E l =
    rounded s (m2 / 2 ^ (e3 - e1)) e3.
Proof.
  intros HM e1 m1. unfold binary_round_aux.
  destruct (shr_fexp_spec M E l HM) as [A B].
  destruct (shr_fexp prec emax M E l) as [mrs' e'].
  simpl fst in A. simpl snd in B. fold e1 in A, B. fold m1 in A.
  set (m2 := round_nearest_even (shr_m mrs') (loc_of_shr_record mrs')).
  pose proof (round_nearest_even_bounds (shr_m mrs')
                (loc_of_shr_record mrs')) as Hm2.
  fold m2 in Hm2. rewrite A in Hm2.
  assert (H1 : 0 <= m1)
    by (apply Z.div_pos; [lia | apply Z.pow_pos_nonneg; lia]).
  exists m2. split; [exact Hm2|].
  destruct (shr_fexp_spec m2 e' loc_Exact ltac:(lia)) as [A2 B2].
  destruct (shr_fexp prec emax m2 e' loc_Exact) as [mrs'' e''].
  simpl fst in A2. simpl snd in B2. subst e' e''. rewrite A2.
  reflexivity.
Qed.

Lemma SFcompare_refl_finite (s : bool) (m : positive) (e : Z) :
  SFcompare (S754_finite s m e) (S754_finite s m e) = Some Eq.
Proof.
  simpl. rewrite Z.compare_refl. fold (Pos.compare m m).
  rewrite Pos.compare_refl. now destruct s.
Qed.

(** *** Rounding a positive mantissa *)

Lemma fexp_eq (e : Z) : fexp prec emax e = Z.max (e - 53) (-1074).
Proof. reflexivity. Qed.

Lemma shl_align_spec (mx : positive) (ex ex' : Z) :
  snd (shl_align mx ex ex') = Z.min ex ex' /\
  Zpos (fst (shl_align mx ex ex')) =
  Zpos mx * 2 ^ (ex - snd (shl_align mx ex ex')).
Proof.
  unfold shl_align. destruct (ex' - ex) as [|d|d] eqn:E; simpl fst; simpl snd.
  - split; [lia|]. rewrite Z.sub_diag. simpl. lia.
  - split; [lia|]. rewrite Z.sub_diag. simpl. lia.
  - split; [lia|]. rewrite iter_xO_pow2. f_equal. f_equal. lia.
Qed.

(** The same for [binary_round], which first aligns the mantissa to
    the left when it is too short. *)
Lemma binary_round_spec (s : bool) (M : positive) (E : Z) :
  let e1 := fexp prec emax (Zpos (digits2_pos M) + E) in
  let z := Z.min E e1 in
  let m1 := (Zpos M * 2 ^ (E - z)) / 2 ^ (e1 - z) in
  exists m2,
    m1 <= m2 <= m1 + 1 /\
    let e3 := Z.max e1 (fexp prec emax (Zdigits2 m2 + e1)) in
    binary_round prec emax s M E = rounded s (m2 / 2 ^ (e3 - e1)) e3.
Proof.
  intros e1 z m1. unfold binary_round. fold e1.
  destruct (shl_align_spec M E e1) as [A B].
  destruct (shl_align M E e1) as [mz ez]. simpl fst in B. simpl snd in A, B.
  fold z in A. subst ez.
  assert (Hz : 0 <= E - z) by (unfold z; lia).
  assert (Dz : Zdigits2 (Zpos mz) + z = Zpos (digits2_pos M) + E).
  { rewrite B, Zdigits2_mul_pow2 by lia. simpl Zdigits2. lia. }
  destruct (binary_round_aux_spec s (Zpos mz) z loc_Exact ltac:(lia))
    as (m2 & Hm2 & R).
  cbv zeta in R. rewrite Dz in R, Hm2. fold e1 in R, Hm2.
  replace (Z.max z e1) with e1 in R, Hm2 by (unfold z; lia).
  rewrite B in Hm2. fold m1 in Hm2.
  exists m2. split; [exact Hm2 | exact R].
Qed.

(** A mantissa with at least one digit survives the final shift. *)
Lemma final_shift_pos (m2 e1 : Z) :
  0 < m2 -> -1074 <= e1 ->
  let e3 := Z.max e1 (fexp prec emax (Zdigits2 m2 + e1)) in
  0 < m2 / 2 ^ (e3 - e1).
Proof.
  intros Hm He e3.
  pose proof (Zdigits2_bounds m2 Hm) as [Lo _].
  pose proof (Zdigits2_pos m2 Hm) as Dp.
  assert (He3 : 0 <= e3 - e1 <= Zdigits2 m2 - 1)
    by (unfold e3; rewrite fexp_eq; lia).
  assert (P : 0 < 2 ^ (e3 - e1)) by (apply Z.pow_pos_nonneg; lia).
  apply Z.div_str_pos. split; [exact P|].
  apply Z.le_trans with (2 ^ (Zdigits2 m2 - 1)); [|exact Lo].
  apply Z.pow_le_mono_r; lia.
Qed.

Lemma canonical_mantissa_eq (m : positive) (e : Z) :
  canonical_mantissa prec emax m e = true ->
  Z.max (Zpos (digits2_pos m) + e - 53) (-1074) = e.
Proof.
  unfold canonical_mantissa. rewrite fexp_eq. intros H.
  now apply Z.eqb_eq in H.
Qed.

Lemma SFleb_finite_pos (mx m : positive) (ex e : Z) :
  ex < e \/ (ex = e /\ Zpos mx <= Zpos m) ->
  SFleb (S754_finite false mx ex) (S754_finite false m e) = true.
Proof.
  unfold SFleb. simpl. fold (Pos.compare mx m).
  intros [L|[E L]].
  - now rewrite (proj2 (Z.compare_lt_iff ex e) L).
  - subst e. rewrite Z.compare_refl.
    destruct (Pos.compare_spec mx m); try reflexivity. lia.
Qed.

Lemma SFleb_finite_neg (mx m : positive) (ex e : Z) :
  e < ex \/ (ex = e /\ Zpos m <= Zpos mx) ->
  SFleb (S754_finite true mx ex) (S754_finite true m e) = true.
Proof.
  unfold SFleb. simpl. fold (Pos.compare mx m).
  intros [L|[E L]].
  - now rewrite (proj2 (Z.compare_gt_iff ex e) L).
  - subst e. rewrite Z.compare_refl.
    destruct (Pos.compare_spec mx m); try reflexivity. lia.
Qed.

(** Rounding a value that is at least a representable positive number
    gives at least that number. *)
Lemma binary_round_ge (mx M : positive) (ex E : Z) :
  canonical_mantissa prec emax mx ex = true ->
  E <= ex ->
  Zpos mx * 2 ^ (ex - E) <= Zpos M ->
  SFleb (S754_finite false mx ex) (binary_round prec emax false M E) = true.
Proof.
  intros Hc HE HM. apply canonical_mantissa_eq in Hc.
  destruct (binary_round_spec false M E) as (m2 & Hm2 & R).
  cbv zeta in Hm2, R. rewrite R. clear R.
  rewrite !fexp_eq in *.
  set (D := Zpos (digits2_pos M) + E) in *.
  set (e1 := Z.max (D - 53) (-1074)) in *.
  assert (HD : Zpos (digits2_pos mx) + ex <= D).
  { unfold D.
    pose proof (Zdigits2_mono (Zpos mx * 2 ^ (ex - E)) (Zpos M)) as Hmono.
    rewrite Zdigits2_mul_pow2 in Hmono by lia. simpl Zdigits2 in Hmono.
    assert (0 < 2 ^ (ex - E)) by (apply Z.pow_pos_nonneg; lia).
    specialize (Hmono ltac:(nia) HM). lia. }
  assert (He1 : ex <= e1) by (unfold e1; lia).
  replace (Z.min E e1) with E in Hm2 by lia.
  rewrite Z.sub_diag, Z.mul_1_r in Hm2.
  set (m1 := Zpos M / 2 ^ (e1 - E)) in *.
  assert (P1 : 0 < 2 ^ (e1 - E)) by (apply Z.pow_pos_nonneg; lia).
  assert (Hm1 : 1 <= m1).
  { unfold m1. apply Z.div_le_lower_bound; [exact P1|].
    pose proof (digits2_pos_bounds M) as [Lo _].
    rewrite Z.mul_1_r.
    apply Z.le_trans with (2 ^ (Zpos (digits2_pos M) - 1)); [|exact Lo].
    apply Z.pow_le_mono_r; [lia|]. unfold e1, D. lia. }
  set (e3 := Z.max e1 (Z.max (Zdigits2 m2 + e1 - 53) (-1074))).
  pose proof (final_shift_pos m2 e1 ltac:(lia) ltac:(unfold e1; lia)) as H3.
  cbv zeta in H3. rewrite fexp_eq in H3. fold e3 in H3.
  unfold rounded.
  destruct (m2 / 2 ^ (e3 - e1)) as [|m3|m3] eqn:E3; try lia.
  destruct (e3 <=? emax - prec); [|reflexivity].
  apply SFleb_finite_pos.
  destruct (Z.eq_dec ex e3) as [Eq|Ne]; [right|left; unfold e3 in *; lia].
  split; [exact Eq|].
  assert (e1 = ex) by (unfold e3 in Eq; lia).
  replace (e3 - e1) with 0 in E3 by lia.
  simpl in E3. rewrite Z.div_1_r in E3. rewrite <- E3.
  apply Z.le_trans with m1; [|lia].
  unfold m1. apply Z.div_le_lower_bound; [exact P1|].
  rewrite H. lia.
Qed.

(** Rounding a magnitude strictly below a representable magnitude gives
    at most that magnitude: on the negative side the sum stays at or
    above the representable number. *)
Lemma binary_round_neg_ge (mx M : positive) (ex E : Z) :
  bounded prec emax mx ex = true ->
  E <= ex ->
  Zpos M < Zpos mx * 2 ^ (ex - E) ->
  SFleb (S754_finite true mx ex) (binary_round prec emax true M E) = true.
Proof.
  unfold bounded. intros Hb HE HM.
  apply andb_prop in Hb as [Hc Hx].
  apply canonical_mantissa_eq in Hc. apply Z.leb_le in Hx.
  change (emax - prec) with 971 in Hx.
  destruct (binary_round_spec true M E) as (m2 & Hm2 & R).
  cbv zeta in Hm2, R. rewrite R. clear R.
  rewrite !fexp_eq in *.
  set (dx := Zpos (digits2_pos mx)) in *.
  set (D := Zpos (digits2_pos M) + E) in *.
  set (e1 := Z.max (D - 53) (-1074)) in *.
  set (z := Z.min E e1) in *.
  set (m1 := Zpos M * 2 ^ (E - z) / 2 ^ (e1 - z)) in *.
  set (e3 := Z.max e1 (Z.max (Zdigits2 m2 + e1 - 53) (-1074))).
  assert (Px : 0 < 2 ^ (ex - E)) by (apply Z.pow_pos_nonneg; lia).
  assert (HD : D <= dx + ex).
  { unfold D, dx.
    pose proof (Zdigits2_mono (Zpos M) (Zpos mx * 2 ^ (ex - E))
                  ltac:(lia) ltac:(lia)) as Hmono.
    rewrite Zdigits2_mul_pow2 in Hmono by lia. simpl Zdigits2 in Hmono.
    lia. }
  assert (He1 : e1 <= ex) by (unfold e1; lia).
  assert (Pz : 0 < 2 ^ (e1 - z)) by (apply Z.pow_pos_nonneg; unfold z; lia).
  assert (PE : 0 < 2 ^ (E - z)) by (apply Z.pow_pos_nonneg; unfold z; lia).
  assert (H0 : 0 <= m1)
    by (unfold m1; apply Z.div_pos; [nia | exact Pz]).
  (* the truncated mantissa has at most 53 digits *)
  assert (HA : m1 < 2 ^ 53).
  { unfold m1. apply Z.div_lt_upper_bound; [exact Pz|].
    rewrite <- Z.pow_add_r by (unfold z; lia).
    pose proof (digits2_pos_bounds M) as [_ Hi].
    apply Z.lt_le_trans with (2 ^ Zpos (digits2_pos M) * 2 ^ (E - z));
      [nia|].
    rewrite <- Z.pow_add_r by (unfold z; lia).
    apply Z.pow_le_mono_r; [lia|]. unfold e1, D, z. lia. }
  unfold rounded.
  destruct (m2 / 2 ^ (e3 - e1)) as [|m3|m3] eqn:E3.
  - reflexivity.
  - assert (Hm2p : 0 < m2).
    { destruct (Z.lt_ge_cases 0 m2) as [L|G]; [exact L|exfalso].
      assert (m2 = 0) by lia. subst m2. rewrite Z.div_0_l in E3.
      - discriminate.
      - apply Z.pow_nonzero; [lia|]. unfold e3. lia. }
    destruct (Z.eq_dec e1 ex) as [Eq|Ne].
    + (* same exponent as the representable number *)
      assert (Hz : z = E) by (unfold z; lia).
      assert (HB : m1 < Zpos mx).
      { unfold m1. rewrite Hz, Z.sub_diag, Z.mul_1_r, Eq.
        apply Z.div_lt_upper_bound; [exact Px | lia]. }
      assert (Hd2 : Zdigits2 m2 <= dx)
        by (apply (Zdigits2_mono m2 (Zpos mx)); lia).
      assert (He3 : e3 = ex) by (unfold e3; lia).
      rewrite He3. replace (ex <=? emax - prec) with true
        by (symmetry; apply Z.leb_le; change (emax - prec) with 971; lia).
      apply SFleb_finite_neg. right. split; [reflexivity|].
      rewrite He3, Eq, Z.sub_diag in E3. simpl in E3.
      rewrite Z.div_1_r in E3. lia.
    + (* a smaller exponent: the number is normal *)
      assert (Hdx : dx = 53) by lia.
      assert (Hmx : 2 ^ 52 <= Zpos mx).
      { pose proof (digits2_pos_bounds mx) as [Lo _]. fold dx in Lo.
        rewrite Hdx in Lo. exact Lo. }
      assert (Hd2 : Zdigits2 m2 <= 54).
      { apply Zdigits2_le_of_lt; [exact Hm2p | lia |].
        change (2 ^ 54) with (2 * 2 ^ 53). lia. }
      assert (He3 : e1 <= e3 <= e1 + 1) by (unfold e3; lia).
      replace (e3 <=? emax - prec) with true
        by (symmetry; apply Z.leb_le; change (emax - prec) with 971; lia).
      apply SFleb_finite_neg.
      destruct (Z.eq_dec e3 ex) as [Eq3|Ne3]; [right|left; lia].
      split; [now symmetry|].
      replace (e3 - e1) with 1 in E3 by lia.
      change (2 ^ 1) with 2 in E3. rewrite <- E3.
      apply Z.le_trans with (2 ^ 52); [|exact Hmx].
      apply Z.div_le_upper_bound; [lia|].
      change (2 * 2 ^ 52) with (2 ^ 53). lia.
  - pose proof (Z.div_pos m2 (2 ^ (e3 - e1))) as Hpos.
    assert (0 < 2 ^ (e3 - e1))
      by (apply Z.pow_pos_nonneg; unfold e3; lia).
    rewrite E3 in Hpos. specialize (Hpos ltac:(lia) ltac:(lia)). lia.
Qed.

Lemma rounded_cases (s : bool) (m3 e3 : Z) :
  0 <= m3 ->
  rounded s m3 e3 = S754_zero s \/
  rounded s m3 e3 = S754_infinity s \/
  exists m, rounded s m3 e3 = S754_finite s m e3.
Proof.
  intros H. unfold rounded. destruct m3 as [|m|m]; try lia; auto.
  destruct (e3 <=? emax - prec); eauto.
Qed.

(** [binary_round_aux] keeps the sign it is given and never yields
    NaN on a non-negative mantissa. *)
Lemma binary_round_aux_cases (s : bool) (M E : Z) (l : location) :
  0 <= M ->
  binary_round_aux prec emax s M E l = S754_zero s \/
  binary_round_aux prec emax s M E l = S754_infinity s \/
  exists m e, binary_round_aux prec emax s M E l = S754_finite s m e.
Proof.
  intros HM.
  destruct (binary_round_aux_spec s M E l HM) as (m2 & Hm2 & R).
  cbv zeta in Hm2, R. rewrite R.
  assert (H1 : 0 <= M / 2 ^ (Z.max E (fexp prec emax (Zdigits2 M + E)) - E))
    by (apply Z.div_pos; [lia | apply Z.pow_pos_nonneg; lia]).
  match goal with
  | |- context [rounded s ?m3 ?e3] =>
      destruct (rounded_cases s m3 e3) as [C|[C|(m & C)]]
  end; eauto.
  apply Z.div_pos; [lia | apply Z.pow_pos_nonneg; lia].
Qed.

Lemma binary_round_cases (s : bool) (M : positive) (E : Z) :
  binary_round prec emax s M E = S754_zero s \/
  binary_round prec emax s M E = S754_infinity s \/
  exists m e, binary_round prec emax s M E = S754_finite s m e.
Proof.
  unfold binary_round.
  destruct (shl_align M E (fexp prec emax (Zpos (digits2_pos M) + E)))
    as [mz ez].
  apply binary_round_aux_cases. lia.
Qed.

Lemma binary_normalize_cases (m e : Z) :
  exists s,
    binary_normalize prec emax m e false = S754_zero s \/
    binary_normalize prec emax m e false = S754_infinity s \/
    exists m' e', binary_normalize prec emax m e false = S754_finite s m' e'.
Proof.
  destruct m as [|p|p]; simpl.
  - exists false. auto.
  - exists false. apply binary_round_cases.
  - exists true. apply binary_round_cases.
Qed.

(** *** Addition of a non-negative number *)

(** Adding a non-negative [y] to a valid [x] other than NaN and
    -Infinity gives at least [x]. *)
Lemma SFadd_nonneg_ge (x y : spec_float) :
  valid_binary x = true ->
  SFltb (S754_infinity true) x = true ->
  SFleb (S754_zero false) y = true ->
  SFleb x (SF64add x y) = true.
Proof.
  intros Vx Hx Hy.
  destruct y as [sy|sy| |sy my ey]; try discriminate Hy;
    try (destruct sy; try discriminate Hy);
    destruct x as [sx|sx| |sx mx ex]; try discriminate Hx;
    try (destruct sx; try discriminate Hx); try reflexivity;
    try (unfold SF64add, SFadd, SFleb; rewrite SFcompare_refl_finite;
         reflexivity).
  - (* negative + positive *)
    unfold SF64add, SFadd. cbv zeta.
    destruct (shl_align_spec mx ex (Z.min ex ey)) as [Ax Bx].
    destruct (shl_align_spec my ey (Z.min ex ey)) as [Ay By].
    rewrite Ax in Bx.
    replace (Z.min ex (Z.min ex ey)) with (Z.min ex ey) in Bx by lia.
    unfold cond_Zopp.
    set (mx' := fst (shl_align mx ex (Z.min ex ey))) in *.
    set (my' := fst (shl_align my ey (Z.min ex ey))) in *.
    destruct (- Z.pos mx' + Z.pos my') as [|p|p] eqn:S;
      unfold binary_normalize.
    + reflexivity.
    + destruct (binary_round_cases false p (Z.min ex ey))
        as [C|[C|(m & e & C)]]; rewrite C; reflexivity.
    + apply binary_round_neg_ge; [exact Vx | lia | lia].
  - (* positive + positive *)
    unfold SF64add, SFadd. cbv zeta.
    destruct (shl_align_spec mx ex (Z.min ex ey)) as [Ax Bx].
    destruct (shl_align_spec my ey (Z.min ex ey)) as [Ay By].
    rewrite Ax in Bx.
    replace (Z.min ex (Z.min ex ey)) with (Z.min ex ey) in Bx by lia.
    unfold cond_Zopp.
    set (mx' := fst (shl_align mx ex (Z.min ex ey))) in *.
    set (my' := fst (shl_align my ey (Z.min ex ey))) in *.
    change (Z.pos mx' + Z.pos my') with (Z.pos (mx' + my')).
    unfold binary_normalize.
    apply binary_round_ge.
    + simpl in Vx. unfold bounded in Vx. now apply andb_prop in Vx.
    + lia.
    + rewrite Pos2Z.inj_add. lia.
Qed.

(** *** Products, differences and quotients *)

Lemma SFmul_nonneg (m : positive) (e : Z) (y : spec_float) :
  SFleb (S754_zero false) y = true ->
  SFleb (S754_zero false) (SF64mul (S754_finite false m e) y) = true.
Proof.
  intros Hy.
  destruct y as [sy|sy| |sy my ey]; try discriminate Hy;
    try (destruct sy; try discriminate Hy); try reflexivity.
  unfold SF64mul, SFmul. simpl xorb.
  destruct (binary_round_aux_cases false (Zpos (m * my)) (e + ey) loc_Exact
              ltac:(lia)) as [C|[C|(m' & e' & C)]]; rewrite C; reflexivity.
Qed.

Lemma SFsub_finite (x y : spec_float) :
  SFfinite x = true -> SFfinite y = true -> SF64sub x y <> S754_nan.
Proof.
  intros Hx Hy.
  destruct x as [sx|sx| |sx mx ex]; try discriminate Hx;
    destruct y as [sy|sy| |sy my ey]; try discriminate Hy;
    unfold SF64sub, SFsub; try discriminate;
    try (destruct sx, sy; discriminate).
  cbv zeta.
  match goal with
  | |- binary_normalize _ _ ?m ?e _ <> _ =>
      destruct (binary_normalize_cases m e) as (s & [C|[C|(m' & e' & C)]])
  end; rewrite C; discriminate.
Qed.

Lemma SFdiv_by_finite (x : spec_float) (s : bool) (m : positive) (e : Z) :
  x <> S754_nan -> SF64div x (S754_finite s m e) <> S754_nan.
Proof.
  intros Hx.
  destruct x as [sx|sx| |sx mx ex]; try congruence;
    unfold SF64div, SFdiv; try discriminate.
  unfold SFdiv_core_binary. cbv zeta.
  match goal with
  | |- context [Z.div_eucl ?a ?b] =>
      pose proof (Z.div_pos a b) as Hq; unfold Z.div in Hq;
      assert (Ha : 0 <= a);
      [ | destruct (Z.div_eucl a b) as [q r]; simpl fst in Hq;
          specialize (Hq Ha ltac:(lia)) ]
  end.
  - match goal with
    | |- 0 <= match ?n with _ => _ end => destruct n
    end; try lia.
    apply Z.shiftl_nonneg. lia.
  - match goal with
    | |- binary_round_aux _ _ ?sg ?M ?E ?l <> _ =>
        destruct (binary_round_aux_cases sg M E l Hq)
          as [C|[C|(m' & e' & C)]]
    end; rewrite C; discriminate.
Qed.

Close Scope Z_scope.

(** *** Primitive floats through their specification *)

Open Scope float_scope.

Lemma is_nan_Prim2SF (x : float) :
  is_nan x = true <-> Prim2SF x = S754_nan.
Proof.
  unfold is_nan. rewrite eqb_spec. unfold SFeqb. split.
  - intros H. destruct (Prim2SF x) as [s|s| |s m e] eqn:E; try reflexivity;
      rewrite SFcompare_refl in H by discriminate; discriminate.
  - intros ->. reflexivity.
Qed.

Lemma is_nan_true (x : float) : is_nan x = true -> x = nan.
Proof.
  intros H. apply Prim2SF_inj. apply is_nan_Prim2SF in H. now rewrite H.
Qed.

Lemma is_nan_false (x : float) :
  is_nan x = false -> Prim2SF x <> S754_nan.
Proof.
  intros H E. apply is_nan_Prim2SF in E. congruence.
Qed.

Lemma ltb_antisym (x y : float) : (x <? y) = true -> (y <? x) = false.
Proof.
  rewrite !ltb_spec. unfold SFltb.
  rewrite (SFcompare_antisym (Prim2SF x) (Prim2SF y)).
  destruct (SFcompare (Prim2SF x) (Prim2SF y)) as [[ | | ]|];
    simpl; congruence.
Qed.

(** Two numbers neither of which is below the other are the same
    number, unless both are zeros. *)
Lemma ltb_total (x y : float) :
  is_nan x = false -> is_nan y = false ->
  (x <? y) = false -> (y <? x) = false ->
  x = y \/ (is_zero x = true /\ is_zero y = true).
Proof.
  intros Nx Ny. apply is_nan_false in Nx, Ny.
  unfold is_zero. rewrite !ltb_spec, !eqb_spec. unfold SFltb, SFeqb.
  rewrite (SFcompare_antisym (Prim2SF x) (Prim2SF y)).
  destruct (SFcompare (Prim2SF x) (Prim2SF y)) as [[ | | ]|] eqn:C;
    simpl; try discriminate.
  - intros _ _. apply SFcompare_Eq in C as [E|(sx & sy & Ex & Ey)].
    + left. now apply Prim2SF_inj.
    + right. rewrite Ex, Ey. now destruct sx, sy.
  - apply SFcompare_None in C as [C|C]; contradiction.
Qed.

Lemma leb_refl (x : float) : is_nan x = false -> (x <=? x) = true.
Proof.
  intros H. apply is_nan_false in H.
  rewrite leb_spec. unfold SFleb. now rewrite SFcompare_refl.
Qed.

Lemma leb_trans (x y z : float) :
  (x <=? y) = true -> (y <=? z) = true -> (x <=? z) = true.
Proof. rewrite !leb_spec. apply SFleb_trans. Qed.

Lemma ltb_leb_trans (x y z : float) :
  (x <? y) = true -> (y <=? z) = true -> (x <? z) = true.
Proof. rewrite !leb_spec, !ltb_spec. apply SFltb_leb_trans. Qed.

Lemma ltb_not_nan (x y : float) : (x <? y) = true -> is_nan y = false.
Proof.
  rewrite ltb_spec. unfold SFltb. intros H.
  destruct (is_nan y) eqn:N; [|reflexivity].
  apply is_nan_Prim2SF in N. rewrite N in H.
  destruct (Prim2SF x); discriminate.
Qed.

(** A number that is not below another one is at least that one. *)
Lemma ltb_false_leb (x y : float) :
  is_nan x = false -> is_nan y = false ->
  (x <? y) = false -> (y <=? x) = true.
Proof.
  intros Nx Ny. apply is_nan_false in Nx, Ny.
  rewrite ltb_spec, leb_spec. unfold SFltb, SFleb.
  rewrite (SFcompare_antisym (Prim2SF x) (Prim2SF y)).
  destruct (SFcompare (Prim2SF x) (Prim2SF y)) as [[ | | ]|] eqn:C;
    simpl; try congruence.
  apply SFcompare_None in C as [C|C]; contradiction.
Qed.

Lemma is_finite_SFfinite (x : float) :
  is_finite x = true -> SFfinite (Prim2SF x) = true.
Proof.
  unfold is_finite, is_infinity. intros H.
  apply negb_true_iff, orb_false_iff in H as [N I].
  apply is_nan_false in N.
  rewrite eqb_spec, abs_spec in I.
  change (Prim2SF infinity) with (S754_infinity false) in I.
  destruct (Prim2SF x) as [s|s| |s m e]; try reflexivity.
  - destruct s; discriminate I.
  - congruence.
Qed.

Lemma sub_finite_not_nan (x y : float) :
  is_finite x = true -> is_finite y = true -> is_nan (x - y) = false.
Proof.
  intros Hx Hy. apply is_finite_SFfinite in Hx, Hy.
  destruct (is_nan (x - y)) eqn:N; [|reflexivity].
  apply is_nan_Prim2SF in N. rewrite sub_spec in N.
  now apply SFsub_finite in N.
Qed.

Lemma div_1000_not_nan (x : float) :
  is_nan x = false -> is_nan (x / 1000) = false.
Proof.
  intros Hx. apply is_nan_false in Hx.
  destruct (is_nan (x / 1000)) eqn:N; [|reflexivity].
  apply is_nan_Prim2SF in N. rewrite div_spec in N.
  change (Prim2SF 1000) with (S754_finite false 8796093022208000 (-43)) in N.
  now apply SFdiv_by_finite in N.
Qed.

(** Adding a non-negative number to a number other than NaN and
    -Infinity does not decrease it. *)
Lemma add_nonneg_ge (x y : float) :
  (neg_infinity <? x) = true -> (0 <=? y) = true -> (x <=? x + y) = true.
Proof.
  rewrite ltb_spec, !leb_spec, add_spec.
  change (Prim2SF neg_infinity) with (S754_infinity true).
  change (Prim2SF 0) with (S754_zero false).
  apply SFadd_nonneg_ge. apply Prim2SF_valid.
Qed.

(** The product of a positive finite number and a non-negative one is
    non-negative. *)
Lemma mul_nonneg (x y : float) :
  (0 <? x) = true -> is_finite x = true -> (0 <=? y) = true ->
  (0 <=? x * y) = true.
Proof.
  intros Px Fx. apply is_finite_SFfinite in Fx. revert Px.
  rewrite ltb_spec, !leb_spec, mul_spec.
  change (Prim2SF 0) with (S754_zero false).
  destruct (Prim2SF x) as [s|s| |s m e]; try discriminate.
  destruct s; [discriminate|]. intros _. apply SFmul_nonneg.
Qed.

Lemma leb_finite_between (lo x hi : float) :
  is_finite lo = true -> is_finite hi = true ->
  (lo <=? x) = true -> (x <=? hi) = true -> is_finite x = true.
Proof.
  intros Fl Fh. apply is_finite_SFfinite in Fl, Fh.
  unfold is_finite, is_nan, is_infinity.
  rewrite !leb_spec, !eqb_spec, abs_spec.
  change (Prim2SF infinity) with (S754_infinity false).
  unfold SFleb, SFeqb.
  destruct (Prim2SF lo) as [sl|sl| |sl ml el]; try discriminate;
    destruct (Prim2SF hi) as [sh|sh| |sh mh eh]; try discriminate;
    destruct (Prim2SF x) as [s|s| |s m e]; simpl; try discriminate;
    try (destruct s; simpl; try discriminate; try reflexivity);
    try (destruct sl; discriminate); try (destruct sh; discriminate);
    intros _ _; rewrite Z.compare_refl, Pos_compare_cont_Eq_refl; reflexivity.
Qed.

End FloatFacts.
(** ** Integers as Numbers

    The program computes its voxel indices on Numbers. On natural
    numbers below 2^53 the sums and products of binary64 are exact, so
    that on the tuples of the grid the index expression yields the
    Number of the integer that [Index.flat_index] computes. *)

Module ExactFacts.

Import JS Index Notions SF FloatFacts.
Open Scope Z_scope.

(** *** Shifting out zero bits *)

Lemma shr_1_even (m : Z) :
  0 <= m ->
  shr_1 (Build_shr_record (2 * m) false false) =
  Build_shr_record m false false.
Proof. destruct m as [|p|p]; try lia; reflexivity. Qed.

Lemma iter_shr_1_even (p : positive) (m : Z) :
  0 <= m ->
  iter_pos shr_1 p (Build_shr_record (m * 2 ^ Zpos p) false false) =
  Build_shr_record m false false.
Proof.
  revert m. induction p as [p IH|p IH|]; intros m Hm.
  - assert (P : 0 < 2 ^ Zpos p) by (apply Z.pow_pos_nonneg; lia).
    replace (m * 2 ^ Zpos p~1) with (2 * (m * 2 ^ Zpos p * 2 ^ Zpos p)).
    + cbn [iter_pos]. rewrite shr_1_even by nia.
      rewrite IH by nia. now apply IH.
    + replace (Zpos p~1) with (1 + Zpos p + Zpos p) by lia.
      rewrite !Z.pow_add_r by lia. change (2 ^ 1) with 2. ring.
  - assert (P : 0 < 2 ^ Zpos p) by (apply Z.pow_pos_nonneg; lia).
    replace (m * 2 ^ Zpos p~0) with (m * 2 ^ Zpos p * 2 ^ Zpos p).
    + cbn [iter_pos]. rewrite IH by nia. now apply IH.
    + replace (Zpos p~0) with (Zpos p + Zpos p) by lia.
      rewrite Z.pow_add_r by lia. ring.
  - cbn [iter_pos]. change (2 ^ 1) with 2. rewrite Z.mul_comm.
    now apply shr_1_even.
Qed.

(** A canonical mantissa followed by zero bits is rounded to itself. *)
Lemma binary_round_aux_exact (s : bool) (m : positive) (e n : Z) :
  canonical_mantissa prec emax m e = true ->
  e <= emax - prec ->
  0 <= n ->
  binary_round_aux prec emax s (Zpos m * 2 ^ n) (e - n) loc_Exact =
  S754_finite s m e.
Proof.
  intros Hc He Hn. apply canonical_mantissa_eq in Hc.
  unfold binary_round_aux, shr_fexp.
  rewrite Zdigits2_mul_pow2 by lia. simpl Zdigits2.
  replace (Zpos (digits2_pos m) + n + (e - n))
    with (Zpos (digits2_pos m) + e) by lia.
  rewrite fexp_eq, Hc.
  replace (e - (e - n)) with n by lia.
  assert (S1 : shr (shr_record_of_loc (Zpos m * 2 ^ n) loc_Exact) (e - n) n
               = (Build_shr_record (Zpos m) false false, e)).
  { destruct n as [|p|p]; try lia.
    - unfold shr, shr_record_of_loc. change (2 ^ 0) with 1.
      rewrite Z.mul_1_r. f_equal. lia.
    - unfold shr, shr_record_of_loc.
      rewrite iter_shr_1_even by lia. f_equal. lia. }
  rewrite S1. simpl shr_m. simpl loc_of_shr_record.
  simpl round_nearest_even. simpl Zdigits2.
  rewrite fexp_eq, Hc, Z.sub_diag. simpl shr. simpl shr_m.
  cbv iota beta. simpl shr_m.
  apply Z.leb_le in He. now rewrite He.
Qed.

(** A mantissa and an exponent that denote a canonical number are
    rounded to it. *)
Lemma binary_round_exact (s : bool) (M m : positive) (E e : Z) :
  canonical_mantissa prec emax m e = true ->
  e <= emax - prec ->
  (e <= E /\ Zpos m = Zpos M * 2 ^ (E - e)) \/
  (E <= e /\ Zpos M = Zpos m * 2 ^ (e - E)) ->
  binary_round prec emax s M E = S754_finite s m e.
Proof.
  intros Hc He H.
  pose proof (canonical_mantissa_eq _ _ Hc) as Hc'.
  assert (D : Zpos (digits2_pos M) + E = Zpos (digits2_pos m) + e).
  { destruct H as [[L Q]|[L Q]].
    - change (Zpos (digits2_pos m)) with (Zdigits2 (Zpos m)).
      rewrite Q, Zdigits2_mul_pow2 by lia. simpl Zdigits2. lia.
    - change (Zpos (digits2_pos M)) with (Zdigits2 (Zpos M)).
      rewrite Q, Zdigits2_mul_pow2 by lia. simpl Zdigits2. lia. }
  unfold binary_round. rewrite D, fexp_eq, Hc'.
  destruct (shl_align_spec M E e) as [A B].
  destruct (shl_align M E e) as [mz ez]. simpl fst in B. simpl snd in A, B.
  subst ez. destruct H as [[L Q]|[L Q]].
  - replace (Z.min E e) with e in * by lia.
    rewrite B, <- Q.
    pose proof (binary_round_aux_exact s m e 0 Hc He ltac:(lia)) as R.
    rewrite Z.sub_0_r in R. change (2 ^ 0) with 1 in R.
    now rewrite Z.mul_1_r in R.
  - replace (Z.min E e) with E in * by lia.
    rewrite B, Z.sub_diag. change (2 ^ 0) with 1. rewrite Z.mul_1_r, Q.
    pose proof (binary_round_aux_exact s m e (e - E) Hc He ltac:(lia)) as R.
    now replace (e - (e - E)) with E in R by lia.
Qed.

(** *** Natural numbers below 2^53 *)

Lemma pow2_mul_add (x a b : Z) :
  0 <= a -> 0 <= b -> x * 2 ^ a * 2 ^ b = x * 2 ^ (a + b).
Proof. intros Ha Hb. rewrite Z.pow_add_r by lia. ring. Qed.

Lemma digits_below_53 (N : positive) :
  Zpos N < 2 ^ 53 -> 1 <= Zpos (digits2_pos N) <= 53.
Proof.
  intros H. split; [lia|].
  apply (Zdigits2_le_of_lt (Zpos N)); lia.
Qed.

(** The canonical mantissa of a natural number: the number shifted to
    53 digits. *)
Lemma nat_canonical (N : positive) :
  Zpos N < 2 ^ 53 ->
  exists m,
    Zpos m = Zpos N * 2 ^ (53 - Zpos (digits2_pos N)) /\
    canonical_mantissa prec emax m (Zpos (digits2_pos N) - 53) = true.
Proof.
  intros H. pose proof (digits_below_53 N H) as D.
  assert (P : 0 < 2 ^ (53 - Zpos (digits2_pos N)))
    by (apply Z.pow_pos_nonneg; lia).
  exists (Z.to_pos (Zpos N * 2 ^ (53 - Zpos (digits2_pos N)))).
  assert (E : Zpos (Z.to_pos (Zpos N * 2 ^ (53 - Zpos (digits2_pos N)))) =
              Zpos N * 2 ^ (53 - Zpos (digits2_pos N)))
    by (apply Z2Pos.id; nia).
  split; [exact E|].
  unfold canonical_mantissa. rewrite fexp_eq.
  change (Zpos (digits2_pos ?p)) with (Zdigits2 (Zpos p)) at 1.
  rewrite E, Zdigits2_mul_pow2 by lia. simpl Zdigits2.
  apply Z.eqb_eq. lia.
Qed.

(** A mantissa and a non-positive exponent that denote the natural
    number [N] are rounded to [N]. *)
Lemma binary_round_nat (s : bool) (M N m : positive) (E : Z) :
  Zpos N < 2 ^ 53 ->
  Zpos m = Zpos N * 2 ^ (53 - Zpos (digits2_pos N)) ->
  canonical_mantissa prec emax m (Zpos (digits2_pos N) - 53) = true ->
  E <= 0 ->
  Zpos M = Zpos N * 2 ^ (- E) ->
  binary_round prec emax s M E =
  S754_finite s m (Zpos (digits2_pos N) - 53).
Proof.
  intros H Hm Hc HE HM. pose proof (digits_below_53 N H) as D.
  apply binary_round_exact; [exact Hc | change (emax - prec) with 971; lia |].
  destruct (Z.le_gt_cases (Zpos (digits2_pos N) - 53) E) as [L|G].
  - left. split; [exact L|].
    rewrite Hm, HM, pow2_mul_add by lia. f_equal. f_equal. lia.
  - right. split; [lia|].
    rewrite Hm, HM, pow2_mul_add by lia. f_equal. f_equal. lia.
Qed.

Lemma binary_normalize_nat (N : positive) :
  Zpos N < 2 ^ 53 ->
  exists m,
    Zpos m = Zpos N * 2 ^ (53 - Zpos (digits2_pos N)) /\
    canonical_mantissa prec emax m (Zpos (digits2_pos N) - 53) = true /\
    binary_normalize prec emax (Zpos N) 0 false =
    S754_finite false m (Zpos (digits2_pos N) - 53).
Proof.
  intros H. destruct (nat_canonical N H) as (m & Hm & Hc).
  exists m. split; [exact Hm|]. split; [exact Hc|].
  unfold binary_normalize.
  apply (binary_round_nat false N N m 0 H Hm Hc); [lia|].
  change (2 ^ (- 0)) with 1. lia.
Qed.

(** The sum of two natural numbers is exact while it stays below
    2^53. *)
Lemma SFadd_nat (A B : positive) :
  Zpos A + Zpos B < 2 ^ 53 ->
  SF64add (binary_normalize prec emax (Zpos A) 0 false)
          (binary_normalize prec emax (Zpos B) 0 false) =
  binary_normalize prec emax (Zpos A + Zpos B) 0 false.
Proof.
  intros H.
  destruct (binary_normalize_nat A ltac:(lia)) as (ma & Hma & Ca & ->).
  destruct (binary_normalize_nat B ltac:(lia)) as (mb & Hmb & Cb & ->).
  change (Zpos A + Zpos B) with (Zpos (A + B)) in *.
  destruct (binary_normalize_nat (A + B) H) as (mc & Hmc & Cc & ->).
  pose proof (digits_below_53 A ltac:(lia)) as Da.
  pose proof (digits_below_53 B ltac:(lia)) as Db.
  pose proof (digits_below_53 (A + B) H) as Dc.
  set (da := Zpos (digits2_pos A)) in *.
  set (db := Zpos (digits2_pos B)) in *.
  unfold SF64add, SFadd. cbv zeta.
  set (ez := Z.min (da - 53) (db - 53)).
  destruct (shl_align_spec ma (da - 53) ez) as [A1 A2].
  destruct (shl_align_spec mb (db - 53) ez) as [B1 B2].
  destruct (shl_align ma (da - 53) ez) as [pa ea].
  destruct (shl_align mb (db - 53) ez) as [pb eb].
  simpl fst in *. simpl snd in *. subst ea eb.
  replace (Z.min (da - 53) ez) with ez in A2 by (unfold ez; lia).
  replace (Z.min (db - 53) ez) with ez in B2 by (unfold ez; lia).
  simpl cond_Zopp. change (Zpos pa + Zpos pb) with (Zpos (pa + pb)).
  unfold binary_normalize.
  apply (binary_round_nat false (pa + pb) (A + B) mc ez H Hmc Cc);
    [unfold ez; lia|].
  rewrite !Pos2Z.inj_add, A2, B2, Hma, Hmb.
  rewrite !pow2_mul_add by (unfold ez; lia).
  replace (53 - da + (da - 53 - ez)) with (- ez) by lia.
  replace (53 - db + (db - 53 - ez)) with (- ez) by lia.
  ring.
Qed.

(** The product of two natural numbers is exact while it stays below
    2^53. *)
Lemma SFmul_nat (A B : positive) :
  Zpos A * Zpos B < 2 ^ 53 ->
  SF64mul (binary_normalize prec emax (Zpos A) 0 false)
          (binary_normalize prec emax (Zpos B) 0 false) =
  binary_normalize prec emax (Zpos A * Zpos B) 0 false.
Proof.
  intros H.
  destruct (binary_normalize_nat A ltac:(nia)) as (ma & Hma & Ca & ->).
  destruct (binary_normalize_nat B ltac:(nia)) as (mb & Hmb & Cb & ->).
  change (Zpos A * Zpos B) with (Zpos (A * B)) in *.
  destruct (binary_normalize_nat (A * B) H) as (mc & Hmc & Cc & ->).
  pose proof (digits_below_53 A ltac:(nia)) as Da.
  pose proof (digits_below_53 B ltac:(nia)) as Db.
  pose proof (digits_below_53 (A * B) H) as Dc.
  pose proof (Zdigits2_mono (Zpos A) (Zpos (A * B)) ltac:(lia) ltac:(nia))
    as Dac.
  simpl Zdigits2 in Dac.
  set (da := Zpos (digits2_pos A)) in *.
  set (db := Zpos (digits2_pos B)) in *.
  set (dc := Zpos (digits2_pos (A * B))) in *.
  unfold SF64mul, SFmul. simpl xorb.
  pose proof (binary_round_aux_exact false mc (dc - 53)
                (dc - 53 - (da - 53 + (db - 53))) Cc
                ltac:(change (emax - prec) with 971; lia) ltac:(lia)) as R.
  replace (dc - 53 - (dc - 53 - (da - 53 + (db - 53))))
    with (da - 53 + (db - 53)) in R by lia.
  rewrite <- R. f_equal.
  rewrite Pos2Z.inj_mul, Hma, Hmb, Hmc, Pos2Z.inj_mul.
  rewrite pow2_mul_add by lia.
  replace (53 - dc + (dc - 53 - (da - 53 + (db - 53))))
    with ((53 - da) + (53 - db)) by lia.
  rewrite Z.pow_add_r by lia. ring.
Qed.

Lemma float_of_Z_spec (n : Z) :
  0 <= n < 2 ^ 63 ->
  Prim2SF (float_of_Z n) = binary_normalize prec emax n 0 false.
Proof.
  intros H. unfold float_of_Z.
  rewrite of_uint63_spec, Uint63.of_Z_spec, Z.mod_small; [reflexivity|].
  exact H.
Qed.

(** Sums and products of natural Numbers are the Numbers of the sums
    and products, below 2^53. *)
Lemma add_exact (a b : Z) :
  0 <= a -> 0 <= b -> a + b < 2 ^ 53 ->
  (float_of_Z a + float_of_Z b)%float = float_of_Z (a + b).
Proof.
  intros Ha Hb H. apply Prim2SF_inj.
  rewrite add_spec, !float_of_Z_spec by lia.
  destruct a as [|A|A]; try lia; destruct b as [|B|B]; try lia.
  - reflexivity.
  - destruct (binary_normalize_nat B ltac:(lia)) as (mb & _ & _ & E).
    rewrite Z.add_0_l, E. reflexivity.
  - destruct (binary_normalize_nat A ltac:(lia)) as (ma & _ & _ & E).
    rewrite Z.add_0_r, E. reflexivity.
  - now apply SFadd_nat.
Qed.

Lemma mul_exact (a b : Z) :
  0 <= a < 2 ^ 53 -> 0 <= b < 2 ^ 53 -> a * b < 2 ^ 53 ->
  (float_of_Z a * float_of_Z b)%float = float_of_Z (a * b).
Proof.
  intros Ha Hb H. apply Prim2SF_inj.
  rewrite mul_spec, !float_of_Z_spec by nia.
  destruct a as [|A|A]; try lia; destruct b as [|B|B]; try lia.
  - reflexivity.
  - destruct (binary_normalize_nat B ltac:(lia)) as (mb & _ & _ & E).
    rewrite Z.mul_0_l, E. reflexivity.
  - destruct (binary_normalize_nat A ltac:(lia)) as (ma & _ & _ & E).
    rewrite Z.mul_0_r, E. reflexivity.
  - now apply SFmul_nat.
Qed.

(** *** The index expression *)

Lemma le_mul_r (a b : Z) : 0 <= a -> 1 <= b -> a <= a * b.
Proof. intros. nia. Qed.

Lemma digit_bound (a b g : Z) :
  0 <= a < g -> 0 <= b -> 0 <= a * b /\ a * b + b <= g * b.
Proof. intros. nia. Qed.

(** On the tuples of a grid with fewer than 2^53 samples, JavaScript's
    evaluation of the index expression is exact: every product and
    every sum is the Number of the integer it stands for. *)
Lemma flat_index_number_exact (meta : VolumeMeta) (xi yi zi t : Z) :
  in_grid meta xi yi zi t ->
  sample_count meta < 2 ^ 53 ->
  flat_index_number meta (float_of_Z xi) (float_of_Z yi) (float_of_Z zi)
                    (float_of_Z t) =
  float_of_Z (flat_index meta xi yi zi t).
Proof.
  intros (Hx & Hy & Hz & Ht) Hn.
  unfold flat_index_number, flat_index, sample_count in *.
  set (gx := vx (grid_size meta)) in *.
  set (gy := vy (grid_size meta)) in *.
  set (gz := vz (grid_size meta)) in *.
  set (tc := time_count meta) in *.
  change (2 ^ 53) with 9007199254740992 in *.
  destruct (digit_bound zi gy gz Hz ltac:(lia)) as [Z0 Z1].
  destruct (digit_bound xi gy gx Hx ltac:(lia)) as [X0 X1].
  destruct (digit_bound xi (gy * gz) gx Hx ltac:(nia)) as [X2 X3].
  destruct (digit_bound t gx tc Ht ltac:(lia)) as [T0 T1].
  destruct (digit_bound t (gx * gy * gz) tc Ht ltac:(nia)) as [T2 T3].
  pose proof (le_mul_r (t * gx) gy T0 ltac:(lia)) as T4.
  pose proof (le_mul_r (t * gx * gy) gz ltac:(lia) ltac:(lia)) as T5.
  pose proof (le_mul_r (xi * gy) gz X0 ltac:(lia)) as X4.
  pose proof (le_mul_r gx gy ltac:(lia) ltac:(lia)) as G1.
  pose proof (le_mul_r (gx * gy) gz ltac:(lia) ltac:(lia)) as G2.
  pose proof (le_mul_r (gx * gy * gz) tc ltac:(lia) ltac:(lia)) as G3.
  pose proof (le_mul_r gy gx ltac:(lia) ltac:(lia)) as G4.
  pose proof (le_mul_r gz gy ltac:(lia) ltac:(lia)) as G5.
  pose proof (le_mul_r (gy * gz) gx ltac:(lia) ltac:(lia)) as G6.
  pose proof (le_mul_r tc (gx * gy * gz) ltac:(lia) ltac:(lia)) as G7.
  rewrite (mul_exact zi gy) by lia.
  rewrite (add_exact yi (zi * gy)) by lia.
  rewrite (mul_exact xi gy) by lia.
  rewrite (mul_exact (xi * gy) gz) by lia.
  rewrite (add_exact (yi + zi * gy) (xi * gy * gz)) by lia.
  rewrite (mul_exact t gx) by lia.
  rewrite (mul_exact (t * gx) gy) by lia.
  rewrite (mul_exact (t * gx * gy) gz) by lia.
  rewrite (add_exact (yi + zi * gy + xi * gy * gz) (t * gx * gy * gz))
    by lia.
  reflexivity.
Qed.

(** Beyond 2^53 the expression is no longer exact: here the integers
    give -1, and JavaScript gives 0. *)
Example flat_index_number_far_from_the_grid :
  flat_index_number sootVisibilityMeta
    (-56294995342131200) (-1) 0 1125899906842624 = 0%float /\
  flat_index sootVisibilityMeta
    (-56294995342131200) (-1) 0 1125899906842624 = -1.
Proof. split; reflexivity. Qed.

End ExactFacts.


(** ** The delta time of a frame *)

Module DeltaTimeFacts.

Import JS App Spec FloatFacts.
Open Scope float_scope.

(** The two folds of [delta_time] on a number that is not NaN. *)
Lemma min_max_unfold (v : float) :
  is_nan v = false ->
  Math_min [1; Math_max [1e-6; v]] =
  let m := if 1e-6 <? v then v else 1e-6 in
  if m <? 1 then m else 1.
Proof.
  intros Nv.
  assert (Emax : Math_max [1e-6; v] = if 1e-6 <? v then v else 1e-6).
  { unfold Math_max. cbn [existsb fold_left]. rewrite Nv.
    change (is_nan 1e-6) with false. cbn [orb].
    change (is_neg_zero neg_infinity) with false.
    rewrite andb_false_r.
    change (neg_infinity <? 1e-6) with true. cbv iota.
    change (is_neg_zero 1e-6) with false. rewrite andb_false_r.
    reflexivity. }
  rewrite Emax. cbv zeta.
  set (m := if 1e-6 <? v then v else 1e-6).
  assert (Nm : is_nan m = false) by (unfold m; destruct (1e-6 <? v); auto).
  unfold Math_min. cbn [existsb fold_left]. rewrite Nm.
  change (is_nan 1) with false. cbn [orb].
  change (is_neg_zero 1) with false. cbn [andb].
  change (1 <? infinity) with true. cbv iota.
  change (is_pos_zero 1) with false. rewrite andb_false_r.
  reflexivity.
Qed.

Lemma min_max_clamp (v : float) :
  Math_min [1; Math_max [1e-6; v]] = clamp v 1e-6 1.
Proof.
  destruct (is_nan v) eqn:Nv.
  - apply is_nan_true in Nv. subst v. reflexivity.
  - rewrite (min_max_unfold v Nv). cbv zeta. unfold clamp.
    destruct (1e-6 <? v) eqn:Lo.
    + rewrite (ltb_antisym _ _ Lo).
      destruct (v <? 1) eqn:Hi.
      * now rewrite (ltb_antisym _ _ Hi).
      * destruct (1 <? v) eqn:Hi'; [reflexivity|].
        destruct (ltb_total v 1 Nv eq_refl Hi Hi') as [E|[_ Z]];
          [now symmetry | discriminate Z].
    + change (1e-6 <? 1) with true. cbv iota.
      destruct (v <? 1e-6) eqn:Lo'; [reflexivity|].
      destruct (ltb_total v 1e-6 Nv eq_refl Lo' Lo) as [E|[_ Z]];
        [| discriminate Z].
      subst v. reflexivity.
Qed.

(** C2: for every previous timestamp (or none) and every current
    timestamp, the delta time of the frame is the elapsed time in
    seconds, 0 on the first frame, clamped to the interval from 1e-6
    to 1; that is, the minimum of 1 and of the maximum of 1e-6 and the
    elapsed time. *)
Theorem delta_time_clamped (lastTime : option float) (time : float) :
  delta_time lastTime time = clamp (elapsed_seconds lastTime time) 1e-6 1 /\
  delta_time lastTime time =
  Math_min [1; Math_max [1e-6; elapsed_seconds lastTime time]].
Proof.
  split.
  - unfold delta_time. fold (elapsed_seconds lastTime time).
    apply min_max_clamp.
  - reflexivity.
Qed.

(** A clamped number other than NaN lies between the bounds. *)
Lemma clamp_bounds (v : float) :
  is_nan v = false ->
  (1e-6 <=? clamp v 1e-6 1) = true /\ (clamp v 1e-6 1 <=? 1) = true.
Proof.
  intros Nv. unfold clamp.
  destruct (v <? 1e-6) eqn:Lo; [split; reflexivity|].
  destruct (1 <? v) eqn:Hi; [split; reflexivity|].
  split; apply ltb_false_leb; auto.
Qed.

Lemma elapsed_seconds_not_nan (lastTime : option float) (time : float) :
  match lastTime with
  | None => True
  | Some last => is_finite last = true
  end ->
  is_finite time = true ->
  is_nan (elapsed_seconds lastTime time) = false.
Proof.
  destruct lastTime as [last|]; simpl; intros Hl Ht.
  - apply div_1000_not_nan. now apply sub_finite_not_nan.
  - reflexivity.
Qed.

(** With finite timestamps the delta time is at least 1e-6 and at
    most 1. *)
Lemma delta_time_bounds (lastTime : option float) (time : float) :
  match lastTime with
  | None => True
  | Some last => is_finite last = true
  end ->
  is_finite time = true ->
  (1e-6 <=? delta_time lastTime time) = true /\
  (delta_time lastTime time <=? 1) = true.
Proof.
  intros Hl Ht.
  unfold delta_time. fold (elapsed_seconds lastTime time).
  rewrite min_max_clamp.
  apply clamp_bounds. now apply elapsed_seconds_not_nan.
Qed.

(** C3, as the code has it: on the first frame the elapsed time 0 is
    clamped up to 1e-6; 250 ms after the previous frame the delta time
    is 0.25 s; 5000 ms after it the delta time is clamped down to 1 s. *)
Theorem delta_time_scenarios :
  (forall time, delta_time None time = 1e-6) /\
  delta_time (Some 1000) 1250 = 0.25 /\
  delta_time (Some 0) 5000 = 1.
Proof. repeat split. Qed.

(** The first frame does not have delta time 0. *)
Lemma delta_time_first_frame_not_zero :
  ~ (delta_time None 16 = 0 /\
     delta_time (Some 1000) 1250 = 0.25 /\
     delta_time (Some 0) 5000 = 1).
Proof.
  intros [H _]. apply (f_equal is_zero) in H. vm_compute in H.
  discriminate H.
Qed.

End DeltaTimeFacts.

(** ** The running application *)

Module AppFacts.

Import JS App Spec FloatFacts DeltaTimeFacts.
Open Scope float_scope.

Ltac run_handler :=
  unfold step, handle, update, on_timescale, on_functionPreset,
    on_glslTextarea_input, on_useCustomFunction, setPalette, on_slider,
    on_extinctionCoefficient, on_distance, on_flag, on_raySteps,
    handleResize, setRenderTarget, render, updateMaterial, modify_options,
    bind, get, modify, emit, ret;
  cbn -[lookup functionPresets trim toLowerCase String.append].

Section Driver.

Variables Math_sin Math_cos : float -> float.

(** *** One frame *)

Lemma update_state (time random : float) (s : App) :
  let s' := exec (update Math_sin Math_cos time random) s in
  uniforms s' u_time =
    uniforms s u_time + delta_time (lastTime s) time * timescale s /\
  uniforms s' u_random = random /\
  lastTime s' = Some time /\
  timescale s' = timescale s /\
  options s' = options s /\
  spinningCube_visible s' = spinningCube_visible s /\
  glslTextarea s' = glslTextarea s.
Proof.
  unfold exec. run_handler.
  destruct (spinningCube_visible s) eqn:V; cbn; rewrite ?V;
    repeat split; reflexivity.
Qed.

Lemma update_calls (time random : float) (s : App) :
  calls_of (update Math_sin Math_cos time random) s =
  OrbitControlsUpdate (delta_time (lastTime s) time) ::
  (if spinningCube_visible s then [Render DepthTarget] else []) ++
  [Render Canvas].
Proof.
  unfold calls_of. run_handler.
  destruct (spinningCube_visible s) eqn:V; reflexivity.
Qed.

(** C4: a frame update leaves the time uniform at its previous value
    plus the delta time of the frame multiplied by the current time
    scale. *)
Theorem update_advances_time (time random : float) (s : App) :
  uniforms (exec (update Math_sin Math_cos time random) s) u_time =
  uniforms s u_time + delta_time (lastTime s) time * timescale s.
Proof. apply update_state. Qed.

(** *** What the events leave untouched *)

Lemma step_Frame (time random : float) (s : App) :
  fst (step Math_sin Math_cos (Frame time random) s) =
  exec (update Math_sin Math_cos time random) s.
Proof.
  unfold step, exec. cbn [handle].
  destruct (update Math_sin Math_cos time random s) as [[u s'] calls].
  reflexivity.
Qed.

Lemma step_Frame_calls (time random : float) (s : App) :
  snd (step Math_sin Math_cos (Frame time random) s) =
  calls_of (update Math_sin Math_cos time random) s.
Proof.
  unfold step, calls_of. cbn [handle].
  destruct (update Math_sin Math_cos time random s) as [[u s'] calls].
  reflexivity.
Qed.

(** Only frames move the time uniform and the previous timestamp, and
    only the "Time Scale" slider moves the time scale. *)
Lemma step_clock (e : event) (s : App) :
  let s' := fst (step Math_sin Math_cos e s) in
  match e with
  | Frame time _ =>
      uniforms s' u_time =
        uniforms s u_time + delta_time (lastTime s) time * timescale s /\
      lastTime s' = Some time /\ timescale s' = timescale s
  | TimeScale value =>
      uniforms s' u_time = uniforms s u_time /\
      lastTime s' = lastTime s /\ timescale s' = value
  | _ =>
      uniforms s' u_time = uniforms s u_time /\
      lastTime s' = lastTime s /\ timescale s' = timescale s
  end.
Proof.
  destruct e as [time random|w h|value|name|text|value|name|u value|value
                |value|f value|value]; cbv zeta.
  - rewrite step_Frame.
    destruct (update_state time random s) as (A & _ & B & C & _). auto.
  - run_handler. auto.
  - run_handler. auto.
  - run_handler. destruct (lookup name functionPresets); cbn; auto.
  - run_handler. destruct (useCustomFunction (options s)) eqn:U; cbn;
      rewrite ?U; auto.
  - run_handler. destruct value; cbn; auto.
  - run_handler. auto.
  - run_handler. destruct u; cbn; auto.
  - run_handler. auto.
  - run_handler. auto.
  - run_handler. destruct f; cbn; auto.
  - run_handler. auto.
Qed.

(** *** Runs *)

Lemma run_app (before after : list event) (s : App) :
  fst (run Math_sin Math_cos (before ++ after) s) =
  fst (run Math_sin Math_cos after (fst (run Math_sin Math_cos before s))).
Proof.
  revert s. induction before as [|e before IH]; intros s; simpl.
  - reflexivity.
  - destruct (step Math_sin Math_cos e s) as [s1 calls1]. simpl.
    specialize (IH s1).
    destruct (run Math_sin Math_cos (before ++ after) s1) as [s2 calls2].
    destruct (run Math_sin Math_cos before s1) as [s3 calls3].
    simpl in *. exact IH.
Qed.

Lemma run_cons (e : event) (rest : list event) (s : App) :
  fst (run Math_sin Math_cos (e :: rest) s) =
  fst (run Math_sin Math_cos rest (fst (step Math_sin Math_cos e s))).
Proof.
  simpl. destruct (step Math_sin Math_cos e s) as [s1 calls1]. simpl.
  destruct (run Math_sin Math_cos rest s1) as [s2 calls2]. reflexivity.
Qed.

(** A property of the state kept by every event holds after every
    run. *)
Lemma run_invariant (P : App -> Prop) :
  (forall e s, P s -> P (fst (step Math_sin Math_cos e s))) ->
  forall events s, P s -> P (fst (run Math_sin Math_cos events s)).
Proof.
  intros Hstep events. induction events as [|e rest IH]; intros s Hs.
  - exact Hs.
  - rewrite run_cons. apply IH, Hstep, Hs.
Qed.

(** *** The custom function *)

Lemma step_options (e : event) (s : App) :
  let o := options s in
  let o' := options (fst (step Math_sin Math_cos e s)) in
  (useCustomFunction o' = useCustomFunction o /\
   customFunction o' = customFunction o) \/
  (useCustomFunction o' = true /\ exists text, customFunction o' = Some text)
  \/
  (useCustomFunction o' = false /\ customFunction o' = None).
Proof.
  destruct e as [time random|w h|value|name|text|value|name|u value|value
                |value|f value|value]; cbv zeta.
  - rewrite step_Frame.
    destruct (update_state time random s) as (_ & _ & _ & _ & E & _).
    rewrite E. auto.
  - run_handler. auto.
  - run_handler. auto.
  - run_handler. destruct (lookup name functionPresets) as [body|]; cbn.
    + right. left. split; [reflexivity | now exists (trim body)].
    + left. auto.
  - run_handler. destruct (useCustomFunction (options s)) eqn:U; cbn;
      rewrite ?U; auto.
  - run_handler. destruct value; cbn.
    + right. left. split; [reflexivity | now exists (glslTextarea s)].
    + right. right. auto.
  - run_handler. auto.
  - run_handler. auto.
  - run_handler. auto.
  - run_handler. auto.
  - run_handler. destruct f; cbn; auto.
  - run_handler. auto.
Qed.

Lemma step_custom_function (e : event) (s : App) :
  custom_function_invariant (options s) ->
  custom_function_invariant (options (fst (step Math_sin Math_cos e s))).
Proof.
  unfold custom_function_invariant. intros Inv.
  destruct (step_options e s) as [[A B]|[[A (text & B)]|[A B]]];
    cbv zeta in *; rewrite A, B.
  - exact Inv.
  - split; intros; [discriminate | reflexivity].
  - split; intros; [discriminate | congruence].
Qed.

(** C9: [options.useCustomFunction] is true exactly when
    [options.customFunction] is not null. This holds for the initial
    options, every event handler keeps it, and so it holds after every
    sequence of events on the constructed application. *)
Theorem custom_function_invariant_kept (uniforms0 : uniform -> float) :
  custom_function_invariant initial_options /\
  (forall e s,
     custom_function_invariant (options s) ->
     custom_function_invariant (options (fst (step Math_sin Math_cos e s))))
  /\
  (forall events,
     custom_function_invariant
       (options (fst (run Math_sin Math_cos events (initial_App uniforms0))))).
Proof.
  assert (I : custom_function_invariant initial_options)
    by (split; intros H; [discriminate H | now contradiction H]).
  split; [exact I|]. split; [exact step_custom_function|].
  intros events.
  apply (run_invariant (fun s => custom_function_invariant (options s))).
  - exact step_custom_function.
  - exact I.
Qed.

(** *** Depth-test compositing *)

Lemma step_depth_test (e : event) (s : App) :
  spinningCube_visible s = useVolumetricDepthTest (options s) ->
  let s' := fst (step Math_sin Math_cos e s) in
  spinningCube_visible s' = useVolumetricDepthTest (options s').
Proof.
  intros Inv.
  destruct e as [time random|w h|value|name|text|value|name|u value|value
                |value|f value|value]; cbv zeta.
  - rewrite step_Frame.
    destruct (update_state time random s) as (_ & _ & _ & _ & E & V & _).
    now rewrite E, V.
  - run_handler. auto.
  - run_handler. auto.
  - run_handler. destruct (lookup name functionPresets); cbn; auto.
  - run_handler. destruct (useCustomFunction (options s)) eqn:U; cbn;
      rewrite ?U; auto.
  - run_handler. destruct value; cbn; auto.
  - run_handler. auto.
  - run_handler. auto.
  - run_handler. auto.
  - run_handler. auto.
  - run_handler. destruct f; cbn; auto.
  - run_handler. auto.
Qed.

Lemma update_renders (time random : float) (s : App) :
  renders (calls_of (update Math_sin Math_cos time random) s) =
  if spinningCube_visible s then [DepthTarget; Canvas] else [Canvas].
Proof.
  rewrite update_calls. destruct (spinningCube_visible s); reflexivity.
Qed.

(** C7: the "Depth Test" check box shows the spinning cube exactly when
    depth-test compositing is switched on, and this stays so whatever
    happens to the constructed application. In a frame with depth-test
    compositing on, the scene is drawn into the depth render target
    first and into the canvas afterwards; in a frame with it off, the
    scene is drawn into the canvas only. *)
Theorem depth_prepass_precedes_final_render
  (uniforms0 : uniform -> float) (history : list event)
  (time random : float) :
  let s := fst (run Math_sin Math_cos history (initial_App uniforms0)) in
  (forall value s0,
     let s1 :=
       fst (step Math_sin Math_cos (ShaderFlag UseVolumetricDepthTest value)
              s0) in
     spinningCube_visible s1 = value /\
     useVolumetricDepthTest (options s1) = value) /\
  spinningCube_visible s = useVolumetricDepthTest (options s) /\
  renders (snd (step Math_sin Math_cos (Frame time random) s)) =
  if useVolumetricDepthTest (options s) then [DepthTarget; Canvas]
  else [Canvas].
Proof.
  intros s.
  assert (V : spinningCube_visible s = useVolumetricDepthTest (options s)).
  { unfold s.
    apply (run_invariant
             (fun s => spinningCube_visible s =
                       useVolumetricDepthTest (options s))).
    - intros e s0 H. now apply step_depth_test.
    - reflexivity. }
  split; [|split].
  - intros value s0. run_handler. auto.
  - exact V.
  - rewrite step_Frame_calls, update_renders, V. reflexivity.
Qed.

(** *** The time uniform never decreases *)

Lemma step_steady (e : event) (s : App) :
  admissible e -> steady s ->
  steady (fst (step Math_sin Math_cos e s)) /\
  (uniforms s u_time <=?
   uniforms (fst (step Math_sin Math_cos e s)) u_time) = true.
Proof.
  intros Ha (Ht & Hl & Hs).
  pose proof (step_clock e s) as C. cbv zeta in C.
  assert (Same : (uniforms s u_time <=? uniforms s u_time) = true)
    by (apply leb_refl; apply (ltb_not_nan _ _ Ht)).
  unfold steady.
  destruct e as [time random|w h|value|name|text|value|name|u value|value
                |value|f value|value];
    try (destruct C as (A & B & D); rewrite A, B, D; auto; fail).
  - (* a frame *)
    destruct C as (A & B & D). rewrite A, B, D. simpl in Ha.
    destruct (delta_time_bounds (lastTime s) time Hl Ha) as [Lo Hi].
    assert (Pos : (0 <? delta_time (lastTime s) time) = true)
      by (apply (ltb_leb_trans 0 1e-6); [reflexivity | exact Lo]).
    assert (Fin : is_finite (delta_time (lastTime s) time) = true)
      by (apply (leb_finite_between 1e-6 _ 1); auto).
    pose proof (mul_nonneg _ _ Pos Fin Hs) as Inc.
    pose proof (add_nonneg_ge _ _ Ht Inc) as Ge.
    repeat split; auto.
    apply (ltb_leb_trans _ _ _ Ht Ge).
  - (* the time scale *)
    destruct C as (A & B & D). rewrite A, B, D.
    destruct Ha as [Ha _]. auto.
Qed.

Lemma run_steady (events : list event) (s : App) :
  Forall admissible events -> steady s ->
  steady (fst (run Math_sin Math_cos events s)) /\
  (uniforms s u_time <=?
   uniforms (fst (run Math_sin Math_cos events s)) u_time) = true.
Proof.
  intros Ha. revert s. induction Ha as [|e rest He Hrest IH]; intros s Hs.
  - split; [exact Hs|]. apply leb_refl.
    destruct Hs as (Ht & _). apply (ltb_not_nan _ _ Ht).
  - rewrite run_cons.
    destruct (step_steady e s He Hs) as [Hs1 L1].
    destruct (IH _ Hs1) as [Hs2 L2].
    split; [exact Hs2|]. apply (leb_trans _ _ _ L1 L2).
Qed.

(** C10: on the constructed application, whose time uniform starts at
    a number other than NaN and -Infinity, with finite frame timestamps
    and a time scale kept in [0, 8], the time uniform after any further
    events is at least what it was before them. *)
Theorem time_uniform_never_decreases
  (uniforms0 : uniform -> float) (before after : list event) :
  (neg_infinity <? uniforms0 u_time) = true ->
  Forall admissible (before ++ after) ->
  let s0 := initial_App uniforms0 in
  (uniforms (fst (run Math_sin Math_cos before s0)) u_time <=?
   uniforms (fst (run Math_sin Math_cos (before ++ after) s0)) u_time) = true.
Proof.
  intros H0 Ha s0. apply Forall_app in Ha as [Hb Hafter].
  assert (S0 : steady s0) by (repeat split; try reflexivity; exact H0).
  destruct (run_steady before s0 Hb S0) as [S1 _].
  rewrite run_app. apply (run_steady after _ Hafter S1).
Qed.

End Driver.

Lemma custom_function_invariant_kept_witness :
  custom_function_invariant
    (options (fst (step no_sin no_cos (UseCustomFunction true)
                     (initial_App (fun _ => 0))))).
Proof.
  destruct (custom_function_invariant_kept no_sin no_cos (fun _ => 0))
    as (I & K & _).
  apply K. exact I.
Defined.

Lemma time_uniform_never_decreases_witness :
  (uniforms (fst (run no_sin no_cos [Frame 0 0.5; TimeScale 2]
                    (initial_App (fun _ => 0)))) u_time <=?
   uniforms (fst (run no_sin no_cos
                    ([Frame 0 0.5; TimeScale 2] ++ [Frame 16 0.25])
                    (initial_App (fun _ => 0)))) u_time) = true.
Proof.
  apply (time_uniform_never_decreases no_sin no_cos (fun _ => 0)
           [Frame 0 0.5; TimeScale 2] [Frame 16 0.25]).
  - reflexivity.
  - repeat constructor.
Defined.

End AppFacts.

(** ** Extinction coefficient and visible range *)

Module OpacityFacts.

Import JS App Spec.
Open Scope float_scope.

Lemma coefficient_round_trip_eq (c : float) (s : App) :
  coefficient_round_trip c s = 3.912 / (3.912 / c).
Proof. reflexivity. Qed.

Lemma all_from_spec (check : Z -> bool) (n : nat) (k : Z) :
  all_from n k check = true ->
  forall j, (k <= j < k + Z.of_nat n)%Z -> check j = true.
Proof.
  revert k. induction n as [|n IH]; intros k H j Hj.
  - simpl in Hj. lia.
  - simpl in H. apply andb_prop in H as [Hk Hrest].
    destruct (Z.eq_dec j k) as [->|Ne]; [exact Hk|].
    apply (IH (k + 1)%Z Hrest). lia.
Qed.

Lemma within_one_ulp_cases (r c : float) :
  within_one_ulp r c = true -> r = c \/ r = next_up c \/ r = next_down c.
Proof.
  unfold within_one_ulp. intros H.
  apply orb_prop in H as [H|H]; [apply orb_prop in H as [H|H]|];
    apply Leibniz.eqb_spec in H; auto.
Qed.

(** C5, as the code has it: for every coefficient the "Extinction
    Coefficient" slider delivers, a multiple of 0.01 from 0.10 to 10.00
    given as the nearest binary64 number or one next to it, converting
    to a distance and back gives the coefficient again up to rounding:
    the result is the coefficient or one of the two binary64 numbers
    next to it. *)
Theorem coefficient_round_trip_within_tolerance
  (k : Z) (c : float) (s : App) :
  (10 <= k <= 1000)%Z ->
  within_one_ulp c (slider_value k) = true ->
  within_one_ulp (coefficient_round_trip c s) c = true.
Proof.
  intros Hk Hc. rewrite coefficient_round_trip_eq.
  pose (near := fun c => within_one_ulp (3.912 / (3.912 / c)) c).
  assert (All : all_from 991 10
                  (fun j => near (slider_value j) &&
                            near (next_up (slider_value j)) &&
                            near (next_down (slider_value j))) = true)
    by (vm_compute; reflexivity).
  pose proof (all_from_spec _ 991 10 All k ltac:(lia)) as Hj.
  cbv beta in Hj.
  apply andb_prop in Hj as [Hj Hdown]. apply andb_prop in Hj as [Hmid Hup].
  destruct (within_one_ulp_cases _ _ Hc) as [-> | [-> | ->]]; assumption.
Qed.

Lemma coefficient_round_trip_within_tolerance_witness :
  within_one_ulp
    (coefficient_round_trip (slider_value 41) (initial_App (fun _ => 0)))
    (slider_value 41) = true.
Proof.
  apply (coefficient_round_trip_within_tolerance 41).
  - lia.
  - reflexivity.
Defined.

(** The round trip does not reproduce the coefficient 0.41. *)
Lemma coefficient_round_trip_inexact :
  (0 <? 0.41) = true /\
  coefficient_round_trip 0.41 (initial_App (fun _ => 0)) <> 0.41.
Proof.
  split; [reflexivity|].
  intros H. apply (f_equal (fun r => r =? 0.41)) in H.
  vm_compute in H. discriminate H.
Qed.

(** Far outside the slider's range the round trip loses the
    coefficient altogether. *)
Lemma coefficient_round_trip_underflow :
  coefficient_round_trip 5e-324 (initial_App (fun _ => 0)) = 0.
Proof. reflexivity. Qed.

End OpacityFacts.

(** ** Loading the data and handing it to the atlas fill *)

Module LoaderFacts.

Import JS App Spec.
Open Scope float_scope.

Lemma new_App_null (host : Host) :
  new_App host None =
  Some (initial_App (volumeRenderer_uniforms host),
        [LoadTexture "./images/palettes/viridis.png"; SetAnimationLoop;
         SetSize (innerWidth host) (innerHeight host);
         TargetSetSize (innerWidth host) (innerHeight host)]).
Proof. reflexivity. Qed.

(** The state of a constructed application does not depend on the
    data. *)
Lemma new_App_state (host : Host) (data : option (list float))
  (s : App) (calls : list call) :
  new_App host data = Some (s, calls) ->
  s = initial_App (volumeRenderer_uniforms host).
Proof.
  unfold new_App. destruct (fill_atlas data) as [atlas|]; [|discriminate].
  cbn. intros H. now inversion H.
Qed.

Lemma fround_scaled_byte (b : byte) :
  Math_fround (float_of_byte b * value_scale sootVisibilityMeta) =
  float_of_byte b * value_scale sootVisibilityMeta.
Proof. destruct b; vm_compute; reflexivity. Qed.

Lemma scale_bytes_nth (bytes : list byte) (i : nat) (b : byte) :
  nth_error bytes i = Some b ->
  nth_error (scale_bytes bytes) i =
  Some (float_of_byte b * value_scale sootVisibilityMeta).
Proof.
  intros H. unfold scale_bytes.
  rewrite nth_error_map, H. simpl. now rewrite fround_scaled_byte.
Qed.

Section Loader.

Variables Response Blob : Type.
Variables Math_sin Math_cos : float -> float.

(** The chain rejects exactly when one of its three stages does. *)
Lemma fetch_bytes_rejected (net : Network Response Blob) :
  fetch_bytes net = Rejected <->
  fetch net "soot_visibility.bytes" = Rejected \/
  (exists r, fetch net "soot_visibility.bytes" = Fulfilled r /\
             response_blob net r = Rejected) \/
  (exists r b, fetch net "soot_visibility.bytes" = Fulfilled r /\
               response_blob net r = Fulfilled b /\
               gunzip_arrayBuffer net b = Rejected).
Proof.
  unfold fetch_bytes, then_.
  destruct (fetch net "soot_visibility.bytes") as [r|].
  - destruct (response_blob net r) as [b|] eqn:Eb.
    + split.
      * intros H. right. right. exists r, b. auto.
      * intros [H|[(r' & H & H')|(r' & b' & H & H' & H'')]];
          try discriminate; congruence.
    + split; [|reflexivity].
      intros _. right. left. exists r. auto.
  - split; auto.
Qed.

(** C6: when the chain of [_init] rejects, [visibilityData] is still
    null; the application is constructed all the same, without any call
    that creates or fills the atlas texture, the animation loop is
    installed, and a frame of the constructed application draws the
    scene into the canvas. *)
Theorem missing_data_still_starts
  (net : Network Response Blob) (host : Host) (time random : float) :
  fetch_bytes net = Rejected ->
  loaded_visibilityData net = None /\
  exists s calls,
    _init net host = Some (s, calls) /\
    existsb is_atlas_call calls = false /\
    In SetAnimationLoop calls /\
    renders (snd (step Math_sin Math_cos (Frame time random) s)) = [Canvas].
Proof.
  intros H.
  assert (E : loaded_visibilityData net = None)
    by (unfold loaded_visibilityData; now rewrite H).
  split; [exact E|].
  unfold _init. rewrite E, new_App_null.
  eexists. eexists. split; [reflexivity|].
  split; [reflexivity|]. split; [simpl; auto|].
  rewrite AppFacts.step_Frame_calls, AppFacts.update_renders.
  reflexivity.
Qed.

(** C8: when the chain of [_init] delivers bytes, every byte is
    multiplied by the value scale of the metadata before it is stored
    into [visibilityData], and the sampling function handed to
    [updateAtlasTexture], together with the maximum of that array,
    reads the array, on every index tuple of the grid, at the flat
    index y + z*gy + x*gy*gz + t*gx*gy*gz: JavaScript's evaluation of
    the index expression on the Numbers of the tuple yields exactly
    that integer, the sample is the element found there (NaN past the
    end of the data) divided by the maximum and raised by 0.3, and so
    the scaled byte of that position divided by the maximum and raised
    by 0.3. *)
Theorem scaled_bytes_reach_sampler
  (net : Network Response Blob) (host : Host) (bytes : list byte) :
  fetch_bytes net = Fulfilled bytes ->
  bytes <> [] ->
  (forall i b,
     nth_error bytes i = Some b ->
     nth_error (scale_bytes bytes) i =
     Some (float_of_byte b * value_scale sootVisibilityMeta)) /\
  exists max s rest,
    reduce_max (scale_bytes bytes) = Some max /\
    _init net host =
    Some (s, CreateAtlasTexture (grid_size sootVisibilityMeta)
                                (grid_offset sootVisibilityMeta)
                                (voxel_size sootVisibilityMeta)
                                (time_count sootVisibilityMeta)
             :: UpdateAtlasTexture (sampleFn (scale_bytes bytes) max)
             :: rest) /\
    (forall xi yi zi x y z t,
       Index.in_grid sootVisibilityMeta xi yi zi t ->
       let gx := vx (grid_size sootVisibilityMeta) in
       let gy := vy (grid_size sootVisibilityMeta) in
       let gz := vz (grid_size sootVisibilityMeta) in
       let index := (yi + zi * gy + xi * gy * gz + t * gx * gy * gz)%Z in
       Notions.flat_index_number sootVisibilityMeta (float_of_Z xi)
         (float_of_Z yi) (float_of_Z zi) (float_of_Z t) =
       float_of_Z index /\
       sampleFn (scale_bytes bytes) max xi yi zi x y z t =
       ToNumber (typed_get (scale_bytes bytes) index) / max + 0.3 /\
       (forall b,
          nth_error bytes (Z.to_nat index) = Some b ->
          sampleFn (scale_bytes bytes) max xi yi zi x y z t =
          float_of_byte b * value_scale sootVisibilityMeta / max + 0.3)).
Proof.
  intros Hfetch Hne.
  split; [intros i b; apply scale_bytes_nth|].
  unfold _init, loaded_visibilityData. rewrite Hfetch.
  unfold new_App, fill_atlas.
  destruct (reduce_max (scale_bytes bytes)) as [max|] eqn:Emax.
  - eexists. eexists. eexists. split; [reflexivity|].
    split; [cbn -[sootVisibilityMeta sampleFn scale_bytes]; reflexivity|].
    intros xi yi zi x y z t Hgrid.
    fold (Index.flat_index sootVisibilityMeta xi yi zi t).
    split; [|split].
    + apply ExactFacts.flat_index_number_exact; [exact Hgrid | reflexivity].
    + reflexivity.
    + intros b Hb. unfold sampleFn, typed_get.
      pose proof (IndexFacts.flat_index_range sootVisibilityMeta xi yi zi t
                    Hgrid) as [Hlo _].
      replace (Index.flat_index sootVisibilityMeta xi yi zi t <? 0)%Z
        with false by (symmetry; apply Z.ltb_ge; exact Hlo).
      rewrite (scale_bytes_nth _ _ _ Hb). reflexivity.
  - destruct bytes as [|b0 rest]; [contradiction|discriminate Emax].
Qed.

End Loader.

Lemma missing_data_still_starts_witness :
  loaded_visibilityData no_network = None.
Proof.
  assert (Hfetch : fetch_bytes no_network = Rejected) by reflexivity.
  destruct (missing_data_still_starts unit unit (fun x => x) (fun x => x)
              no_network small_host 16 0.5 Hfetch) as [H _].
  exact H.
Defined.

Lemma scaled_bytes_reach_sampler_witness :
  nth_error (scale_bytes ["008"%byte; "016"%byte]) 1 = Some 2.
Proof.
  assert (Hfetch : fetch_bytes two_byte_network =
                   Fulfilled ["008"%byte; "016"%byte]) by reflexivity.
  assert (Hne : ["008"%byte; "016"%byte] <> []) by discriminate.
  destruct (scaled_bytes_reach_sampler unit unit two_byte_network small_host
              ["008"%byte; "016"%byte] Hfetch Hne) as [H _].
  exact (H 1%nat "016"%byte eq_refl).
Defined.

End LoaderFacts.

(** ** The embedding at work *)

Module Examples.

Import JS App Spec.
Open Scope float_scope.

Example Math_max_zeros : Math_max [-0; 0] = 0 /\ Math_max [0; -0] = 0.
Proof. split; reflexivity. Qed.

Example Math_min_zeros : Math_min [-0; 0] = -0 /\ Math_min [0; -0] = -0.
Proof. split; reflexivity. Qed.

Example Math_max_nan : Math_max [1; nan] = nan.
Proof. reflexivity. Qed.

Example Math_fround_tenth : Math_fround 0.1 = 0.10000000149011612.
Proof. reflexivity. Qed.

Example trim_keeps_inner_space :
  trim (String "010" (" a b " ++ String "010" "")) = "a b"%string.
Proof. reflexivity. Qed.

Example initial_textarea :
  glslTextarea (initial_App (fun _ => 0)) =
  ("vec3 p = vec3(x, y, z) - vec3(1.0);" ++ String "010"
     "return length(p) + 0.1 * sin(t);")%string.
Proof. reflexivity. Qed.

Example delta_time_negative_elapsed : delta_time (Some 10) 5 = 1e-6.
Proof. reflexivity. Qed.

Example delta_time_nan : delta_time (Some 10) nan = nan.
Proof. reflexivity. Qed.

Example slider_values :
  slider_value 10 = 0.1 /\ slider_value 41 = 0.41 /\ slider_value 1000 = 10.
Proof. repeat split. Qed.

Example round_trip_of_0_41 :
  coefficient_round_trip 0.41 (initial_App (fun _ => 0))
  = 0.41000000000000003.
Proof. reflexivity. Qed.

Example scale_two_bytes :
  scale_bytes ["008"%byte; "255"%byte] = [1; 31.875].
Proof. reflexivity. Qed.

(** The sampling function on two bytes: the first voxel of the first
    time step reads element 0, anything past the end reads
    [undefined]. *)
Example sampleFn_first_voxel :
  sampleFn (scale_bytes ["008"%byte; "016"%byte]) 2
           0%Z 0%Z 0%Z (-1) (-1) (-1) 0%Z = 0.8.
Proof. reflexivity. Qed.

Example sampleFn_out_of_range :
  sampleFn (scale_bytes ["008"%byte; "016"%byte]) 2
           0%Z 2%Z 0%Z (-1) (-1) (-1) 0%Z = nan.
Proof. reflexivity. Qed.

Example empty_data_throws :
  _init (mkNetwork (Response := unit) (Blob := unit)
           (fun _ => Fulfilled tt) (fun _ => Fulfilled tt)
           (fun _ => Fulfilled []))
        small_host = None.
Proof. reflexivity. Qed.

(** Two frames around switching depth testing on and off again. *)
Example calls_of_a_short_session :
  map (fun c => match c with
                | UpdateMaterial o => UpdateMaterial initial_options
                | other => other
                end)
      (snd (run no_sin no_cos
              [ShaderFlag UseVolumetricDepthTest true; Frame 10 0.5;
               ShaderFlag UseVolumetricDepthTest false; Frame 30 0.25]
              (initial_App (fun _ => 0)))) =
  [UpdateMaterial initial_options;
   OrbitControlsUpdate 1e-6; Render DepthTarget; Render Canvas;
   UpdateMaterial initial_options;
   OrbitControlsUpdate 0.02; Render Canvas].
Proof. reflexivity. Qed.

Example preset_then_edit :
  let s := fst (run no_sin no_cos
                  [FunctionPreset "Sphere"; TextareaInput "return 1.0;"]
                  (initial_App (fun _ => 0))) in
  useCustomFunction (options s) = false /\
  customFunction (options s) = None /\
  glslTextarea s = "return 1.0;"%string /\
  functionPreset (options s) = "Sphere"%string.
Proof. repeat split. Qed.

End Examples.
(** ** The data set: scaling, maximum and samples *)

Module DataFacts.

Import JS App Spec Notions FloatFacts.
Open Scope float_scope.

(** *** Checking all bytes *)

Lemma byte_of_Z_to_N (b : byte) : byte_of_Z (Z.of_N (Byte.to_N b)) = b.
Proof.
  unfold byte_of_Z. now rewrite N2Z.id, Byte.of_to_N.
Qed.

Lemma all_byte_pairs_spec (check : byte -> byte -> bool) :
  all_byte_pairs check = true -> forall a b, check a b = true.
Proof.
  unfold all_byte_pairs. intros H a b.
  pose proof (Byte.to_N_bounded a) as Ba.
  pose proof (Byte.to_N_bounded b) as Bb.
  pose proof (OpacityFacts.all_from_spec _ 256 0 H
                (Z.of_N (Byte.to_N a)) ltac:(lia)) as Ha.
  cbv beta in Ha.
  pose proof (OpacityFacts.all_from_spec _ 256 0 Ha
                (Z.of_N (Byte.to_N b)) ltac:(lia)) as Hb.
  cbv beta in Hb. now rewrite !byte_of_Z_to_N in Hb.
Qed.

Lemma scale_bytes_scaled (bytes : list byte) :
  scale_bytes bytes = map scaled bytes.
Proof. reflexivity. Qed.

Lemma scaled_plain (b : byte) :
  scaled b = float_of_byte b * value_scale sootVisibilityMeta.
Proof. apply LoaderFacts.fround_scaled_byte. Qed.

Lemma scaled_pairs (check : float -> float -> bool) :
  all_byte_pairs
    (fun a b => check (float_of_byte a * value_scale sootVisibilityMeta)
                      (float_of_byte b * value_scale sootVisibilityMeta))
  = true ->
  forall a b, check (scaled a) (scaled b) = true.
Proof.
  intros H a b. rewrite !scaled_plain.
  apply (all_byte_pairs_spec _ H).
Qed.

Lemma scaled_not_nan (b : byte) : is_nan (scaled b) = false.
Proof.
  apply negb_true_iff.
  apply (scaled_pairs (fun x _ => negb (is_nan x)));
    [vm_compute; reflexivity | exact b].
Qed.

(** X1: scaling keeps the order of the raw bytes, strictly, so that no
    two bytes are stored as the same number. *)
Theorem scaling_keeps_order (a b : byte) :
  (scaled a <? scaled b) = (Byte.to_N a <? Byte.to_N b)%N /\
  (scaled a = scaled b -> a = b).
Proof.
  assert (Order : forall a b,
             (scaled a <? scaled b) = (Byte.to_N a <? Byte.to_N b)%N).
  { intros a' b'. rewrite !scaled_plain. apply eqb_prop.
    apply (all_byte_pairs_spec
             (fun a b =>
                Bool.eqb
                  (float_of_byte a * value_scale sootVisibilityMeta <?
                   float_of_byte b * value_scale sootVisibilityMeta)
                  (Byte.to_N a <? Byte.to_N b)%N)).
    vm_compute. reflexivity. }
  split; [apply Order|].
  intros E.
  pose proof (Order a b) as Hab. pose proof (Order b a) as Hba.
  rewrite E in Hab. rewrite E in Hba.
  assert (Irr : (scaled b <? scaled b) = false).
  { rewrite (Order b b). apply N.ltb_irrefl. }
  rewrite Irr in Hab, Hba.
  symmetry in Hab, Hba. apply N.ltb_ge in Hab, Hba.
  assert (En : Byte.to_N a = Byte.to_N b) by lia.
  apply (f_equal Byte.of_N) in En. rewrite !Byte.of_to_N in En.
  now inversion En.
Qed.

(** *** The maximum of the data *)

Lemma ltb_leb (x y : float) : (x <? y) = true -> (x <=? y) = true.
Proof.
  rewrite ltb_spec, leb_spec. unfold SFltb, SFleb.
  destruct (SFcompare (Prim2SF x) (Prim2SF y)) as [[ | | ]|];
    congruence.
Qed.

(** One step of [(a, x) => a > x ? a : x]: the result is one of the
    two and at least both. *)
Lemma larger_step (a x : float) :
  is_nan a = false -> is_nan x = false ->
  let r := if x <? a then a else x in
  (r = a \/ r = x) /\ (a <=? r) = true /\ (x <=? r) = true /\
  is_nan r = false.
Proof.
  intros Na Nx. cbv zeta. destruct (x <? a) eqn:L.
  - repeat split; auto using leb_refl, ltb_leb.
  - repeat split; auto using leb_refl, ltb_false_leb.
Qed.

Lemma fold_larger (rest : list float) (first : float) :
  is_nan first = false ->
  Forall (fun v => is_nan v = false) rest ->
  let max := fold_left (fun a x => if x <? a then a else x) rest first in
  In max (first :: rest) /\
  Forall (fun v => (v <=? max) = true) (first :: rest) /\
  is_nan max = false.
Proof.
  revert first. induction rest as [|x rest IH]; intros first Nf Nr.
  - simpl. repeat split; auto.
    constructor; [now apply leb_refl | constructor].
  - inversion Nr as [|? ? Nx Nrest]; subst.
    destruct (larger_step first x Nf Nx) as (Hr & Ha & Hx & Nn).
    cbv zeta in *. simpl fold_left.
    set (r := if x <? first then first else x) in *.
    destruct (IH r Nn Nrest) as (Hin & Hall & Nmax).
    cbv zeta in *.
    set (max := fold_left (fun a x0 => if x0 <? a then a else x0) rest r)
      in *.
    inversion Hall as [|? ? Hrmax Hrest]; subst.
    split; [|split; [|exact Nmax]].
    + destruct Hin as [Hin|Hin].
      * destruct Hr as [Hr|Hr]; rewrite <- Hin, Hr; simpl; auto.
      * simpl. auto.
    + constructor; [exact (leb_trans _ _ _ Ha Hrmax)|].
      constructor; [exact (leb_trans _ _ _ Hx Hrmax) | exact Hrest].
Qed.

(** X2: on data without NaN, [reduce] with [(a, x) => a > x ? a : x]
    yields an element of the data that is at least every element. *)
Theorem reduce_max_is_maximum (data : list float) :
  data <> [] ->
  Forall (fun v => is_nan v = false) data ->
  exists max,
    reduce_max data = Some max /\
    In max data /\
    Forall (fun v => (v <=? max) = true) data.
Proof.
  intros Hne Hnan. destruct data as [|first rest]; [contradiction|].
  inversion Hnan as [|? ? Nf Nr]; subst.
  destruct (fold_larger rest first Nf Nr) as (Hin & Hall & _).
  eexists. split; [reflexivity|]. split; assumption.
Qed.

Lemma reduce_max_is_maximum_witness :
  exists max,
    reduce_max [1; 3; 2] = Some max /\
    In max [1; 3; 2] /\
    Forall (fun v => (v <=? max) = true) [1; 3; 2].
Proof.
  apply reduce_max_is_maximum.
  - discriminate.
  - repeat constructor.
Defined.

Lemma scale_bytes_not_nan (bytes : list byte) :
  Forall (fun v => is_nan v = false) (scale_bytes bytes).
Proof.
  rewrite scale_bytes_scaled. apply Forall_forall. intros v Hv.
  apply in_map_iff in Hv as (b & <- & _). apply scaled_not_nan.
Qed.

Lemma reduce_max_scaled (bytes : list byte) (max : float) :
  reduce_max (scale_bytes bytes) = Some max ->
  exists m,
    max = scaled m /\ In m bytes /\
    forall b, In b bytes -> (scaled b <=? scaled m) = true.
Proof.
  intros Hmax. destruct bytes as [|b0 rest]; [discriminate|].
  pose proof (scale_bytes_not_nan (b0 :: rest)) as Hnan.
  rewrite scale_bytes_scaled in *. simpl map in *.
  inversion Hnan as [|? ? Nf Nr]; subst.
  destruct (fold_larger _ _ Nf Nr) as (Hin & Hall & _). cbv zeta in *.
  simpl reduce_max in Hmax. inversion Hmax as [Emax]. rewrite Emax in *.
  change (scaled b0 :: map scaled rest) with (map scaled (b0 :: rest))
    in Hin, Hall.
  apply in_map_iff in Hin as (m & Em & Hm).
  exists m. split; [now symmetry|]. split; [exact Hm|].
  intros b Hb. rewrite Em.
  rewrite Forall_forall in Hall. apply Hall. now apply in_map.
Qed.

(** What the sampling function returns on a tuple of the grid whose
    flat index lies in the data. *)
Lemma sampleFn_in_data (bytes : list byte) (max : float)
  (xi yi zi : Z) (x y z : float) (t : Z) (b : byte) :
  Index.in_grid sootVisibilityMeta xi yi zi t ->
  nth_error bytes
    (Z.to_nat (Index.flat_index sootVisibilityMeta xi yi zi t)) = Some b ->
  sampleFn (scale_bytes bytes) max xi yi zi x y z t = scaled b / max + 0.3.
Proof.
  intros Hgrid Hb. unfold sampleFn, typed_get.
  pose proof (IndexFacts.flat_index_range sootVisibilityMeta xi yi zi t
                Hgrid) as [Hlo _].
  replace (Index.flat_index sootVisibilityMeta xi yi zi t <? 0)%Z
    with false by (symmetry; apply Z.ltb_ge; exact Hlo).
  rewrite (LoaderFacts.scale_bytes_nth _ _ _ Hb), <- scaled_plain.
  reflexivity.
Qed.

(** X3: when some byte of the data is not zero, every sample of the
    grid taken from the data lies between 0.3 and 1.3, and a voxel
    holding the maximum is sampled as 1.3. *)
Theorem samples_are_normalised (bytes : list byte) (max : float)
  (xi yi zi : Z) (x y z : float) (t : Z) (b : byte) :
  reduce_max (scale_bytes bytes) = Some max ->
  (0 <? max) = true ->
  Index.in_grid sootVisibilityMeta xi yi zi t ->
  nth_error bytes
    (Z.to_nat (Index.flat_index sootVisibilityMeta xi yi zi t)) = Some b ->
  let v := sampleFn (scale_bytes bytes) max xi yi zi x y z t in
  (0.3 <=? v) = true /\ (v <=? 1.3) = true /\ (scaled b = max -> v = 1.3).
Proof.
  intros Hmax Hpos Hgrid Hb v. unfold v.
  rewrite (sampleFn_in_data _ _ _ _ _ _ _ _ _ _ Hgrid Hb).
  destruct (reduce_max_scaled bytes max Hmax) as (m & -> & Hm & Hle).
  specialize (Hle b (nth_error_In _ _ Hb)).
  pose proof (scaled_pairs
                (fun p q =>
                   implb ((p <=? q) && (0 <? q))
                         ((0.3 <=? p / q + 0.3) && (p / q + 0.3 <=? 1.3) &&
                          implb (Leibniz.eqb p q)
                                (Leibniz.eqb (p / q + 0.3) 1.3)))
                ltac:(vm_compute; reflexivity) b m) as C.
  cbv beta in C. rewrite Hle, Hpos in C. simpl in C.
  apply andb_prop in C as [C C3]. apply andb_prop in C as [C1 C2].
  repeat split; auto.
  intros E. apply Leibniz.eqb_spec.
  apply Leibniz.eqb_spec in E. now rewrite E in C3.
Qed.

Lemma samples_are_normalised_witness :
  (0.3 <=? sampleFn (scale_bytes ["008"%byte; "016"%byte]) 2
             0%Z 0%Z 0%Z (-1) (-1) (-1) 0%Z) = true.
Proof.
  assert (G : Index.in_grid sootVisibilityMeta 0 0 0 0)
    by (repeat split; reflexivity).
  assert (P : (0 <? 2) = true) by reflexivity.
  exact (proj1 (samples_are_normalised ["008"%byte; "016"%byte] 2
                  0%Z 0%Z 0%Z (-1) (-1) (-1) 0%Z "008"%byte
                  eq_refl P G eq_refl)).
Defined.

(** A NaN numerator stays NaN through the division and the sum. *)
Lemma nan_sample (max : float) : nan / max + 0.3 = nan.
Proof.
  assert (E : nan / max = nan).
  { apply Prim2SF_inj. rewrite div_spec.
    change (Prim2SF nan) with S754_nan. reflexivity. }
  rewrite E. reflexivity.
Qed.

(** X4: on a tuple of the grid whose flat index
    y + z*gy + x*gy*gz + t*gx*gy*gz is not below the length of the data,
    as with a payload shorter than the grid, the sample is NaN, whatever
    the maximum. *)
Theorem sample_outside_data_is_nan (data : list float) (max : float)
  (xi yi zi : Z) (x y z : float) (t : Z) :
  Index.in_grid sootVisibilityMeta xi yi zi t ->
  (Z.of_nat (List.length data) <=
   yi + zi * vy (grid_size sootVisibilityMeta) +
   xi * vy (grid_size sootVisibilityMeta) * vz (grid_size sootVisibilityMeta) +
   t * vx (grid_size sootVisibilityMeta) * vy (grid_size sootVisibilityMeta) *
   vz (grid_size sootVisibilityMeta))%Z ->
  sampleFn data max xi yi zi x y z t = nan.
Proof.
  intros Hgrid H. unfold sampleFn, typed_get.
  fold (Index.flat_index sootVisibilityMeta xi yi zi t) in H.
  pose proof (IndexFacts.flat_index_range sootVisibilityMeta xi yi zi t
                Hgrid) as [Hlo _].
  set (i := Index.flat_index sootVisibilityMeta xi yi zi t) in *.
  replace (i <? 0)%Z with false by (symmetry; apply Z.ltb_ge; exact Hlo).
  assert (Hlen : (List.length data <= Z.to_nat i)%nat) by lia.
  apply nth_error_None in Hlen. rewrite Hlen. apply nan_sample.
Qed.

Lemma sample_outside_data_is_nan_witness :
  sampleFn [1] 1 0%Z 1%Z 0%Z (-1) (-1) (-1) 0%Z = nan.
Proof.
  apply sample_outside_data_is_nan.
  - repeat split; reflexivity || discriminate.
  - vm_compute. discriminate.
Defined.

(** X5: when every byte of the data is zero the maximum is 0, and the
    sampling function returns NaN on every tuple. *)
Theorem zero_data_is_sampled_as_nan (bytes : list byte)
  (xi yi zi : Z) (x y z : float) (t : Z) :
  bytes <> [] ->
  Forall (fun b => b = x00) bytes ->
  reduce_max (scale_bytes bytes) = Some 0 /\
  sampleFn (scale_bytes bytes) 0 xi yi zi x y z t = nan.
Proof.
  intros Hne Hzero.
  assert (Hmax : reduce_max (scale_bytes bytes) = Some 0).
  { destruct (reduce_max (scale_bytes bytes)) as [max|] eqn:E.
    - destruct (reduce_max_scaled bytes max E) as (m & -> & Hm & _).
      rewrite Forall_forall in Hzero. now rewrite (Hzero m Hm).
    - destruct bytes; [contradiction | discriminate E]. }
  split; [exact Hmax|].
  unfold sampleFn, typed_get.
  destruct (Index.flat_index sootVisibilityMeta xi yi zi t <? 0)%Z;
    [reflexivity|].
  destruct (nth_error (scale_bytes bytes) _) as [v|] eqn:E;
    [|reflexivity].
  apply nth_error_In in E. rewrite scale_bytes_scaled in E.
  apply in_map_iff in E as (b & <- & Hb).
  rewrite Forall_forall in Hzero. now rewrite (Hzero b Hb).
Qed.

Lemma zero_data_is_sampled_as_nan_witness :
  sampleFn (scale_bytes [x00; x00]) 0 0%Z 1%Z 0%Z (-1) (-1) (-1) 0%Z = nan.
Proof.
  assert (Hne : [x00; x00] <> []) by discriminate.
  assert (Hz : Forall (fun b => b = x00) [x00; x00])
    by (repeat constructor).
  exact (proj2 (zero_data_is_sampled_as_nan [x00; x00]
                  0%Z 1%Z 0%Z (-1) (-1) (-1) 0%Z Hne Hz)).
Defined.

End DataFacts.

(** ** Start-up on an empty payload, and the order of the flat index *)

Module StartFacts.

Import JS App Spec Notions.
Open Scope float_scope.

Section Loader.

Variables Response Blob : Type.

(** X6: start-up throws exactly when the chain delivers an empty
    payload; on a rejected chain and on every non-empty payload the
    application is constructed. *)
Theorem init_throws_iff_empty (net : Network Response Blob) (host : Host) :
  _init net host = None <-> fetch_bytes net = Fulfilled [].
Proof.
  unfold _init, loaded_visibilityData.
  destruct (fetch_bytes net) as [bytes|].
  - destruct bytes as [|b rest].
    + split; reflexivity.
    + split; [|discriminate].
      unfold new_App, fill_atlas. simpl reduce_max. cbn. discriminate.
  - rewrite LoaderFacts.new_App_null. split; discriminate.
Qed.

End Loader.

End StartFacts.

Module OrderFacts.

Import Index Notions.
Open Scope Z_scope.

(** X7: the flat index grows with the time index first, then with x,
    then with z, and last with y: of two tuples of the grid, the one
    that comes first in that order has the smaller flat index. *)
Theorem flat_index_follows_order (meta : VolumeMeta)
  (xi yi zi t xi' yi' zi' t' : Z) :
  in_grid meta xi yi zi t -> in_grid meta xi' yi' zi' t' ->
  tuple_before xi yi zi t xi' yi' zi' t' ->
  flat_index meta xi yi zi t < flat_index meta xi' yi' zi' t'.
Proof.
  intros (Hx & Hy & Hz & Ht) (Hx' & Hy' & Hz' & Ht') Hlt.
  rewrite !IndexFacts.flat_index_nested.
  set (gx := vx (grid_size meta)) in *.
  set (gy := vy (grid_size meta)) in *.
  set (gz := vz (grid_size meta)) in *.
  assert (A : xi + gx * t < xi' + gx * t' \/
              (xi + gx * t = xi' + gx * t' /\
               (zi < zi' \/ (zi = zi' /\ yi < yi')))).
  { destruct Hlt as [L|[E [L|[E' R]]]]; [left; nia | left; nia |].
    right. subst. auto. }
  assert (B : zi + gz * (xi + gx * t) < zi' + gz * (xi' + gx * t') \/
              (zi + gz * (xi + gx * t) = zi' + gz * (xi' + gx * t') /\
               yi < yi')).
  { destruct A as [L|[E [L|[E' R]]]]; [left; nia | left; nia |].
    right. rewrite E, E'. auto. }
  destruct B as [L|[E L]]; [nia | rewrite E; lia].
Qed.

Lemma flat_index_follows_order_witness :
  flat_index sootVisibilityMeta 49 49 49 0
  < flat_index sootVisibilityMeta 0 0 0 1.
Proof.
  apply flat_index_follows_order.
  - repeat split; reflexivity || discriminate.
  - repeat split; reflexivity || discriminate.
  - left. lia.
Defined.

End OrderFacts.

(** ** The control panel and the frames, over sequences of events *)

Module PanelFacts.

Import JS App Spec Notions FloatFacts DeltaTimeFacts AppFacts.
Open Scope float_scope.

Section Driver.

Variables Math_sin Math_cos : float -> float.

(** *** The custom function and the text area *)

Lemma step_custom_function_shown (e : event) (s : App) :
  custom_function_shown s ->
  custom_function_shown (fst (step Math_sin Math_cos e s)).
Proof.
  unfold custom_function_shown. intros Inv.
  destruct e as [time random|w h|value|name|text|value|name|u value|value
                |value|f value|value].
  - rewrite step_Frame.
    destruct (update_state Math_sin Math_cos time random s)
      as (_ & _ & _ & _ & E & _ & T).
    now rewrite E, T.
  - run_handler. exact Inv.
  - run_handler. exact Inv.
  - run_handler. destruct (lookup name functionPresets) as [body|]; cbn;
      [reflexivity | exact Inv].
  - run_handler. destruct (useCustomFunction (options s)) eqn:U; cbn;
      rewrite ?U in *; [reflexivity | exact Inv].
  - run_handler. destruct value; cbn; reflexivity.
  - run_handler. exact Inv.
  - run_handler. exact Inv.
  - run_handler. exact Inv.
  - run_handler. exact Inv.
  - run_handler. destruct f; cbn; exact Inv.
  - run_handler. exact Inv.
Qed.

(** X8: whatever happens to the constructed application, the custom
    function in use is the text shown in the text area, and there is
    none while the switch is off. *)
Theorem custom_function_is_the_shown_text
  (uniforms0 : uniform -> float) (events : list event) :
  custom_function_shown
    (fst (run Math_sin Math_cos events (initial_App uniforms0))).
Proof.
  apply (run_invariant Math_sin Math_cos custom_function_shown).
  - exact step_custom_function_shown.
  - reflexivity.
Qed.

(** *** Rebuilding the material *)

Lemma step_material (e : event) (s : App) :
  let s' := fst (step Math_sin Math_cos e s) in
  let calls := snd (step Math_sin Math_cos e s) in
  (material_calls calls = [] /\
   shader_options (options s') = shader_options (options s)) \/
  material_calls calls = [options s'].
Proof.
  destruct e as [time random|w h|value|name|text|value|name|u value|value
                |value|f value|value]; cbv zeta.
  - left. rewrite step_Frame, step_Frame_calls, update_calls.
    destruct (update_state Math_sin Math_cos time random s)
      as (_ & _ & _ & _ & E & _).
    rewrite E. split; [|reflexivity].
    destruct (spinningCube_visible s); reflexivity.
  - left. run_handler. auto.
  - left. run_handler. auto.
  - run_handler. destruct (lookup name functionPresets) as [body|]; cbn;
      [right | left]; auto.
  - run_handler. destruct (useCustomFunction (options s)) eqn:U; cbn;
      [right | left]; auto.
  - right. run_handler. destruct value; reflexivity.
  - left. run_handler. auto.
  - left. run_handler. auto.
  - left. run_handler. auto.
  - left. run_handler. auto.
  - right. run_handler. destruct f; reflexivity.
  - right. run_handler. reflexivity.
Qed.

(** X9: an event either leaves the shader options, the ray steps and
    the custom function as they are and does not call [updateMaterial],
    or calls [updateMaterial] exactly once, with the options as they
    are after the event. Frames, resizes, the time scale, the palette,
    the sliders of the uniforms and the opacity sliders never call it. *)
Theorem material_follows_shader_options (e : event) (s : App) :
  let s' := fst (step Math_sin Math_cos e s) in
  let calls := snd (step Math_sin Math_cos e s) in
  ((material_calls calls = [] /\
    shader_options (options s') = shader_options (options s)) \/
   material_calls calls = [options s']) /\
  (match e with
   | Frame _ _ | Resize _ _ | TimeScale _ | Palette _ | Slider _ _
   | ExtinctionCoefficient _ | Distance _ => material_calls calls = []
   | _ => True
   end).
Proof.
  cbv zeta. split; [apply step_material|].
  destruct e as [time random|w h|value|name|text|value|name|u value
                |value|value|f value|value]; try exact I;
    try (run_handler; reflexivity).
  rewrite step_Frame_calls, update_calls.
  destruct (spinningCube_visible s); reflexivity.
Qed.

(** *** The point light *)

Lemma step_point_light (e : event) (s : App) :
  pointLight_visible s = usePointLights (options s) ->
  let s' := fst (step Math_sin Math_cos e s) in
  pointLight_visible s' = usePointLights (options s').
Proof.
  intros Inv.
  destruct e as [time random|w h|value|name|text|value|name|u value|value
                |value|f value|value]; cbv zeta.
  - rewrite step_Frame. unfold exec. run_handler.
    destruct (spinningCube_visible s); cbn; exact Inv.
  - run_handler. auto.
  - run_handler. auto.
  - run_handler. destruct (lookup name functionPresets); cbn; auto.
  - run_handler. destruct (useCustomFunction (options s)); cbn; auto.
  - run_handler. destruct value; cbn; auto.
  - run_handler. auto.
  - run_handler. auto.
  - run_handler. auto.
  - run_handler. auto.
  - run_handler. destruct f; cbn; auto.
  - run_handler. auto.
Qed.

(** X10: the point light is visible exactly while "Point Lights" is
    switched on, whatever happens to the constructed application. *)
Theorem point_light_follows_its_switch
  (uniforms0 : uniform -> float) (events : list event) :
  let s := fst (run Math_sin Math_cos events (initial_App uniforms0)) in
  pointLight_visible s = usePointLights (options s).
Proof.
  cbv zeta.
  apply (run_invariant Math_sin Math_cos
           (fun s => pointLight_visible s = usePointLights (options s))).
  - intros e s H. now apply step_point_light.
  - reflexivity.
Qed.

(** *** The opacity sliders *)

Lemma step_opacity (e : event) (s : App) :
  let s' := fst (step Math_sin Math_cos e s) in
  if is_opacity_event e then opacity_linked s'
  else distance (options s') = distance (options s) /\
       extinctionCoefficient (options s') =
       extinctionCoefficient (options s) /\
       uniforms s' u_extinctionCoefficient =
       uniforms s u_extinctionCoefficient.
Proof.
  destruct e as [time random|w h|value|name|text|value|name|u value|value
                |value|f value|value]; cbv zeta; cbn [is_opacity_event].
  - rewrite step_Frame. unfold exec. run_handler.
    destruct (spinningCube_visible s); cbn; auto.
  - run_handler. auto.
  - run_handler. auto.
  - run_handler. destruct (lookup name functionPresets); cbn; auto.
  - run_handler. destruct (useCustomFunction (options s)); cbn; auto.
  - run_handler. destruct value; cbn; auto.
  - run_handler. auto.
  - run_handler. destruct u; cbn; auto.
  - unfold opacity_linked. run_handler. auto.
  - unfold opacity_linked. run_handler. auto.
  - run_handler. destruct f; cbn; auto.
  - run_handler. auto.
Qed.

(** X11: once one of the two opacity sliders has been moved, the
    coefficient uniform equals [options.extinctionCoefficient] and one
    of coefficient and distance is 3.912 divided by the other; until
    then coefficient, distance and uniform keep their values. *)
Theorem opacity_sliders_stay_linked (events : list event) (s : App) :
  let s' := fst (run Math_sin Math_cos events s) in
  if existsb is_opacity_event events then opacity_linked s'
  else distance (options s') = distance (options s) /\
       extinctionCoefficient (options s') =
       extinctionCoefficient (options s) /\
       uniforms s' u_extinctionCoefficient =
       uniforms s u_extinctionCoefficient.
Proof.
  cbv zeta. revert s. induction events as [|e rest IH]; intros s.
  - simpl. auto.
  - rewrite run_cons. cbn [existsb].
    specialize (IH (fst (step Math_sin Math_cos e s))).
    pose proof (step_opacity e s) as He. cbv zeta in He.
    destruct (existsb is_opacity_event rest).
    + rewrite orb_true_r. exact IH.
    + rewrite orb_false_r. destruct IH as (D & C & U).
      destruct (is_opacity_event e).
      * unfold opacity_linked in *. rewrite D, C, U. exact He.
      * destruct He as (D' & C' & U'). rewrite D, C, U. auto.
Qed.

(** *** Drawing *)

Lemma run_calls_cons (e : event) (rest : list event) (s : App) :
  snd (run Math_sin Math_cos (e :: rest) s) =
  (snd (step Math_sin Math_cos e s) ++
   snd (run Math_sin Math_cos rest (fst (step Math_sin Math_cos e s))))%list.
Proof.
  simpl. destruct (step Math_sin Math_cos e s) as [s1 calls1]. simpl.
  destruct (run Math_sin Math_cos rest s1) as [s2 calls2]. reflexivity.
Qed.

Lemma step_renders (e : event) (s : App) :
  renders (snd (step Math_sin Math_cos e s)) =
  if is_frame e
  then (if spinningCube_visible s then [DepthTarget; Canvas] else [Canvas])
  else [].
Proof.
  destruct e as [time random|w h|value|name|text|value|name|u value|value
                |value|f value|value]; cbn [is_frame];
    try (run_handler; reflexivity).
  - rewrite step_Frame_calls. apply update_renders.
  - run_handler. destruct (lookup name functionPresets); reflexivity.
  - run_handler. destruct (useCustomFunction (options s)); reflexivity.
  - run_handler. destruct value; reflexivity.
  - run_handler. destruct f; reflexivity.
Qed.

Lemma step_target (e : event) (s : App) :
  renderer_target (fst (step Math_sin Math_cos e s)) =
  if is_frame e then Canvas else renderer_target s.
Proof.
  destruct e as [time random|w h|value|name|text|value|name|u value|value
                |value|f value|value]; cbn [is_frame];
    try (run_handler; reflexivity).
  - rewrite step_Frame. unfold exec. run_handler.
    destruct (spinningCube_visible s); reflexivity.
  - run_handler. destruct (lookup name functionPresets); reflexivity.
  - run_handler. destruct (useCustomFunction (options s)); reflexivity.
  - run_handler. destruct value; reflexivity.
  - run_handler. destruct f; reflexivity.
Qed.

(** X12: in any sequence of events the canvas is drawn exactly once per
    frame and the depth target at most once per frame; nothing but a
    frame draws, and after a frame the canvas is the current render
    target again. *)
Theorem canvas_drawn_once_per_frame (events : list event) (s : App) :
  let drawn := renders (snd (run Math_sin Math_cos events s)) in
  let frames := List.length (filter is_frame events) in
  List.length (filter is_canvas drawn) = frames /\
  (List.length (filter (fun t => negb (is_canvas t)) drawn) <= frames)%nat /\
  renderer_target (fst (run Math_sin Math_cos events s)) =
  if existsb is_frame events then Canvas else renderer_target s.
Proof.
  cbv zeta. revert s. induction events as [|e rest IH]; intros s.
  - simpl. auto.
  - rewrite run_calls_cons, run_cons. unfold renders at 1 2.
    rewrite flat_map_app. fold (renders (snd (step Math_sin Math_cos e s))).
    fold (renders (snd (run Math_sin Math_cos rest
                          (fst (step Math_sin Math_cos e s))))).
    rewrite !filter_app, !length_app.
    destruct (IH (fst (step Math_sin Math_cos e s))) as (A & B & C).
    rewrite A, C, step_renders, step_target. cbn [filter existsb].
    destruct (is_frame e); cbn [orb].
    + destruct (spinningCube_visible s); cbn; repeat split; try lia.
      * now destruct (existsb is_frame rest).
      * now destruct (existsb is_frame rest).
    + cbn. repeat split; try lia.
Qed.

End Driver.

End PanelFacts.

(** ** The clock: stalled timestamps, long pauses and a time scale of zero *)

Module ClockFacts.

Import JS App Spec Notions SF FloatFacts DeltaTimeFacts AppFacts.

(** *** Differences and quotients that are not positive *)

Open Scope Z_scope.

(** Of two canonical mantissas the one with the smaller exponent is the
    smaller number. *)
Lemma canonical_lt (mx my : positive) (ex ey : Z) :
  canonical_mantissa prec emax mx ex = true ->
  canonical_mantissa prec emax my ey = true ->
  ex < ey ->
  Zpos mx < Zpos my * 2 ^ (ey - ex).
Proof.
  intros Cx Cy L.
  apply canonical_mantissa_eq in Cx, Cy.
  pose proof (digits2_pos_bounds mx) as [_ Hx].
  pose proof (digits2_pos_bounds my) as [Hy _].
  assert (Dy : Zpos (digits2_pos my) = 53) by lia.
  rewrite Dy in Hy. change (2 ^ (53 - 1)) with (2 ^ 52) in Hy.
  assert (Dx : Zpos (digits2_pos mx) <= 53) by lia.
  assert (Hx' : Zpos mx < 2 ^ 53).
  { apply Z.lt_le_trans with (2 ^ Zpos (digits2_pos mx)); [exact Hx|].
    apply Z.pow_le_mono_r; lia. }
  assert (P : 2 ^ 1 <= 2 ^ (ey - ex)) by (apply Z.pow_le_mono_r; lia).
  change (2 ^ 1) with 2 in P. change (2 ^ 53) with (2 * 2 ^ 52) in Hx'.
  nia.
Qed.

Lemma binary_round_nonpos (M : positive) (E : Z) :
  SFnonpos (binary_round prec emax true M E) = true.
Proof.
  destruct (binary_round_cases true M E) as [C|[C|(m & e & C)]];
    rewrite C; reflexivity.
Qed.

Lemma SFsub_nonpos (x y : spec_float) :
  valid_binary x = true -> valid_binary y = true ->
  SFfinite x = true -> SFfinite y = true ->
  SFleb x y = true ->
  SFnonpos (SF64sub x y) = true.
Proof.
  intros Vx Vy Fx Fy L.
  destruct x as [sx|sx| |sx mx ex]; try discriminate Fx;
    destruct y as [sy|sy| |sy my ey]; try discriminate Fy.
  - destruct sx, sy; reflexivity.
  - destruct sy; [discriminate L | reflexivity].
  - destruct sx; [reflexivity | discriminate L].
  - unfold SF64sub, SFsub. cbv zeta.
    destruct (shl_align_spec mx ex (Z.min ex ey)) as [Ax Bx].
    destruct (shl_align_spec my ey (Z.min ex ey)) as [Ay By].
    rewrite Ax in Bx. rewrite Ay in By.
    replace (Z.min ex (Z.min ex ey)) with (Z.min ex ey) in Bx by lia.
    replace (Z.min ey (Z.min ex ey)) with (Z.min ex ey) in By by lia.
    set (mx' := fst (shl_align mx ex (Z.min ex ey))) in *.
    set (my' := fst (shl_align my ey (Z.min ex ey))) in *.
    simpl in Vx, Vy. unfold bounded in Vx, Vy.
    apply andb_prop in Vx as [Cx _]. apply andb_prop in Vy as [Cy _].
    assert (Hle : cond_Zopp sx (Zpos mx') - cond_Zopp sy (Zpos my') <= 0).
    { unfold SFleb in L. simpl in L. fold (Pos.compare mx my) in L.
      destruct sx, sy; unfold cond_Zopp; try discriminate L; try lia.
      - (* both negative *)
        destruct (Z.compare_spec ex ey) as [E|Lt|Gt]; try discriminate L.
        + subst ey. rewrite Bx, By.
          destruct (Pos.compare_spec mx my); try discriminate L; nia.
        + pose proof (canonical_lt my mx ey ex Cy Cx Gt) as H.
          rewrite Bx, By.
          replace (Z.min ex ey) with ey by lia.
          rewrite Z.sub_diag. change (2 ^ 0) with 1. lia.
      - (* both positive *)
        destruct (Z.compare_spec ex ey) as [E|Lt|Gt]; try discriminate L.
        + subst ey. rewrite Bx, By.
          destruct (Pos.compare_spec mx my); try discriminate L; nia.
        + pose proof (canonical_lt mx my ex ey Cx Cy Lt) as H.
          rewrite Bx, By.
          replace (Z.min ex ey) with ex by lia.
          rewrite Z.sub_diag. change (2 ^ 0) with 1. lia. }
    destruct (cond_Zopp sx (Zpos mx') - cond_Zopp sy (Zpos my'))
      as [|p|p]; try lia; unfold binary_normalize.
    + reflexivity.
    + apply binary_round_nonpos.
Qed.

Lemma SFdiv_nonpos (x : spec_float) (m : positive) (e : Z) :
  x <> S754_nan -> SFnonpos x = true ->
  SFnonpos (SF64div x (S754_finite false m e)) = true.
Proof.
  intros Hx Hn.
  destruct x as [sx|sx| |sx mx ex]; try congruence.
  - destruct sx; reflexivity.
  - destruct sx; [reflexivity | discriminate Hn].
  - destruct sx; [|discriminate Hn].
    unfold SF64div, SFdiv, SFdiv_core_binary. cbv zeta.
    match goal with
    | |- context [Z.div_eucl ?a ?b] =>
        pose proof (Z.div_pos a b) as Hq; unfold Z.div in Hq;
        assert (Ha : 0 <= a);
        [ | destruct (Z.div_eucl a b) as [q r]; simpl fst in Hq;
            specialize (Hq Ha ltac:(lia)) ]
    end.
    + match goal with
      | |- 0 <= match ?n with _ => _ end => destruct n
      end; try lia.
      apply Z.shiftl_nonneg. lia.
    + match goal with
      | |- context [binary_round_aux _ _ ?sg ?M ?E ?l] =>
          destruct (binary_round_aux_cases sg M E l Hq)
            as [C|[C|(m' & e' & C)]]
      end; rewrite C; reflexivity.
Qed.

Lemma SFleb_ltb_trans (x y z : spec_float) :
  SFleb x y = true -> SFltb y z = true -> SFltb x z = true.
Proof.
  unfold SFleb, SFltb.
  destruct x as [sx|sx| |sx mx ex], y as [sy|sy| |sy my ey],
           z as [sz|sz| |sz mz ez]; simpl; try discriminate;
    try reflexivity;
    try destruct sx; try destruct sy; try destruct sz; simpl;
    try discriminate; try reflexivity; intros H1 H2; sf_cases.
Qed.

Lemma SFeqb_trans (x y z : spec_float) :
  SFeqb x y = true -> SFeqb y z = true -> SFeqb x z = true.
Proof.
  unfold SFeqb.
  destruct x as [sx|sx| |sx mx ex], y as [sy|sy| |sy my ey],
           z as [sz|sz| |sz mz ez]; simpl; try discriminate;
    try reflexivity;
    try destruct sx; try destruct sy; try destruct sz; simpl;
    try discriminate; try reflexivity; intros H1 H2; sf_cases.
Qed.

(** Adding a zero changes no number. *)
Lemma SFadd_zero (x : spec_float) (s : bool) :
  x <> S754_nan -> SFeqb (SF64add x (S754_zero s)) x = true.
Proof.
  intros Hx. unfold SFeqb.
  destruct x as [sx|sx| |sx mx ex]; try congruence.
  - destruct sx, s; reflexivity.
  - destruct sx; reflexivity.
  - unfold SF64add, SFadd. now rewrite SFcompare_refl_finite.
Qed.

(** *** Quotients that are at least 1 *)

(** Rounding a quotient that is at least a representable positive
    number gives at least that number. *)
Lemma binary_round_aux_ge (mx : positive) (M ex E : Z) (l : location) :
  canonical_mantissa prec emax mx ex = true ->
  E <= ex ->
  Zpos mx * 2 ^ (ex - E) <= M ->
  SFleb (S754_finite false mx ex) (binary_round_aux prec emax false M E l)
  = true.
Proof.
  intros Hc HE HM. apply canonical_mantissa_eq in Hc.
  assert (P0 : 0 < 2 ^ (ex - E)) by (apply Z.pow_pos_nonneg; lia).
  assert (M0 : 0 < M) by nia.
  destruct (binary_round_aux_spec false M E l ltac:(lia)) as (m2 & Hm2 & R).
  cbv zeta in Hm2, R. rewrite R. clear R.
  rewrite !fexp_eq in *.
  set (D := Zdigits2 M + E) in *.
  set (e1 := Z.max E (Z.max (D - 53) (-1074))) in *.
  assert (HD : Zpos (digits2_pos mx) + ex <= D).
  { unfold D.
    pose proof (Zdigits2_mono (Zpos mx * 2 ^ (ex - E)) M) as Hmono.
    rewrite Zdigits2_mul_pow2 in Hmono by lia. simpl Zdigits2 in Hmono.
    specialize (Hmono ltac:(nia) HM). lia. }
  assert (He1 : ex <= e1) by (unfold e1; lia).
  set (m1 := M / 2 ^ (e1 - E)) in *.
  assert (P1 : 0 < 2 ^ (e1 - E)) by (apply Z.pow_pos_nonneg; lia).
  assert (Hm1 : 1 <= m1).
  { unfold m1. apply Z.div_le_lower_bound; [exact P1|].
    pose proof (Zdigits2_bounds M M0) as [Lo _].
    rewrite Z.mul_1_r.
    apply Z.le_trans with (2 ^ (Zdigits2 M - 1)); [|exact Lo].
    apply Z.pow_le_mono_r; [lia|]. unfold e1, D. lia. }
  set (e3 := Z.max e1 (Z.max (Zdigits2 m2 + e1 - 53) (-1074))).
  pose proof (final_shift_pos m2 e1 ltac:(lia) ltac:(unfold e1; lia)) as H3.
  cbv zeta in H3. rewrite fexp_eq in H3. fold e3 in H3.
  unfold rounded.
  destruct (m2 / 2 ^ (e3 - e1)) as [|m3|m3] eqn:E3; try lia.
  destruct (e3 <=? emax - prec); [|reflexivity].
  apply SFleb_finite_pos.
  destruct (Z.eq_dec ex e3) as [Eq|Ne]; [right|left; unfold e3 in *; lia].
  split; [exact Eq|].
  assert (e1 = ex) by (unfold e3 in Eq; lia).
  replace (e3 - e1) with 0 in E3 by lia.
  simpl in E3. rewrite Z.div_1_r in E3. rewrite <- E3.
  apply Z.le_trans with m1; [|lia].
  unfold m1. apply Z.div_le_lower_bound; [exact P1|].
  rewrite H. lia.
Qed.

(** A quotient by 1000 of a number that is at least 1000 is at least 1. *)
Lemma SFdiv_1000_ge_one (x : spec_float) :
  valid_binary x = true ->
  SFleb (S754_finite false 8796093022208000 (-43)) x = true ->
  SFleb (S754_finite false 4503599627370496 (-52))
        (SF64div x (S754_finite false 8796093022208000 (-43))) = true.
Proof.
  destruct x as [sx|sx| |sx mx ex]; try discriminate.
  - destruct sx; [discriminate | reflexivity].
  - destruct sx; [discriminate|]. intros V L.
    unfold valid_binary, bounded in V. apply andb_prop in V as [Cx Bx].
    pose proof (canonical_mantissa_eq _ _ Cx) as Dx.
    apply Z.leb_le in Bx. change (emax - prec) with 971 in Bx.
    assert (Hx : -43 < ex \/ (ex = -43 /\ 8796093022208000 <= Zpos mx)).
    { revert L. unfold SFleb, SFcompare.
      fold (Pos.compare 8796093022208000 mx).
      destruct (Z.compare_spec (-43) ex) as [E|Lt|Gt]; try discriminate.
      - subst ex.
        destruct (Pos.compare_spec 8796093022208000 mx) as [E|Lt|Gt];
          try discriminate; intros _; right; split; lia.
      - intros _. now left. }
    assert (D53 : Zpos (digits2_pos mx) = 53) by lia.
    pose proof (digits2_pos_bounds mx) as [Lo Hi]. rewrite D53 in Lo, Hi.
    change (2 ^ (53 - 1)) with 4503599627370496 in Lo.
    unfold SF64div, SFdiv, SFdiv_core_binary. cbv zeta.
    simpl Zdigits2. rewrite D53, fexp_eq.
    change (Zpos (digits2_pos 8796093022208000)) with 53.
    replace (Z.min (Z.max (53 + ex - (53 + -43) - 53) (-1074)) (ex - -43))
      with (ex - 10) by lia.
    replace (ex - -43 - (ex - 10)) with 53 by lia.
    rewrite Z.shiftl_mul_pow2 by lia.
    pose proof (Z.div_le_lower_bound (Zpos mx * 2 ^ 53) 8796093022208000)
      as Hq.
    unfold Z.div in Hq.
    destruct (Z.div_eucl (Zpos mx * 2 ^ 53) 8796093022208000) as [q r].
    simpl fst in Hq. simpl xorb.
    change (2 ^ 53) with 9007199254740992 in Hq.
    destruct Hx as [Lt|[E Hm]].
    + apply SFleb_trans with (S754_finite false 4503599627370496 (ex - 10)).
      * apply SFleb_finite_pos. lia.
      * apply binary_round_aux_ge; [|lia|].
        -- unfold canonical_mantissa. rewrite fexp_eq.
           change (Zpos (digits2_pos 4503599627370496)) with 53.
           apply Z.eqb_eq. lia.
        -- rewrite Z.sub_diag. apply Hq; lia.
    + subst ex. apply binary_round_aux_ge; [reflexivity | lia |].
      change (-43 - 10) with (-53). change (-52 - -53) with 1.
      apply Hq; lia.
Qed.

Close Scope Z_scope.
Open Scope float_scope.

Lemma leb_ltb_trans (x y z : float) :
  (x <=? y) = true -> (y <? z) = true -> (x <? z) = true.
Proof. rewrite !leb_spec, !ltb_spec. apply SFleb_ltb_trans. Qed.

Lemma eqb_trans (x y z : float) :
  (x =? y) = true -> (y =? z) = true -> (x =? z) = true.
Proof. rewrite !eqb_spec. apply SFeqb_trans. Qed.

Lemma eqb_refl (x : float) : is_nan x = false -> (x =? x) = true.
Proof.
  unfold is_nan. intros H. now apply negb_false_iff in H.
Qed.

Lemma sub_nonpos (x y : float) :
  is_finite x = true -> is_finite y = true -> (x <=? y) = true ->
  (x - y <=? 0) = true.
Proof.
  intros Fx Fy. apply is_finite_SFfinite in Fx, Fy.
  rewrite !leb_spec, sub_spec. change (Prim2SF 0) with (S754_zero false).
  apply SFsub_nonpos; auto using Prim2SF_valid.
Qed.

Lemma div_1000_nonpos (v : float) :
  (v <=? 0) = true -> (v / 1000 <=? 0) = true.
Proof.
  intros H.
  assert (N : Prim2SF v <> S754_nan).
  { intros E. rewrite leb_spec, E in H. discriminate H. }
  revert H. rewrite !leb_spec, div_spec.
  change (Prim2SF 0) with (S754_zero false).
  change (Prim2SF 1000) with (S754_finite false 8796093022208000 (-43)).
  now apply SFdiv_nonpos.
Qed.

Lemma div_1000_ge_one (v : float) :
  (1000 <=? v) = true -> (1 <=? v / 1000) = true.
Proof.
  rewrite !leb_spec, div_spec.
  change (Prim2SF 1000) with (S754_finite false 8796093022208000 (-43)).
  change (Prim2SF 1) with (S754_finite false 4503599627370496 (-52)).
  apply SFdiv_1000_ge_one. apply Prim2SF_valid.
Qed.

(** At or above the upper bound the clamp yields the upper bound. *)
Lemma clamp_above (v : float) :
  (1 <=? v) = true -> clamp v 1e-6 1 = 1.
Proof.
  intros H. unfold clamp.
  destruct (v <? 1e-6) eqn:Lo.
  - pose proof (leb_ltb_trans _ _ _ H Lo) as C. discriminate C.
  - destruct (1 <? v) eqn:Hi; [reflexivity|].
    apply Prim2SF_inj. revert H Hi. rewrite leb_spec, ltb_spec.
    unfold SFleb, SFltb.
    destruct (SFcompare (Prim2SF 1) (Prim2SF v)) as [[ | | ]|] eqn:C;
      try discriminate.
    intros _ _. apply SFcompare_Eq in C as [C|(sx & sy & C & _)].
    + now symmetry.
    + discriminate C.
Qed.

(** X13: a frame whose timestamp does not exceed the previous one has
    the delta time 1e-6. *)
Theorem delta_time_of_a_stalled_clock (last time : float) :
  is_finite last = true -> is_finite time = true ->
  (time <=? last) = true ->
  delta_time (Some last) time = 1e-6.
Proof.
  intros Fl Ft L.
  unfold delta_time. rewrite min_max_clamp. unfold clamp.
  pose proof (div_1000_nonpos _ (sub_nonpos _ _ Ft Fl L)) as H.
  now rewrite (leb_ltb_trans _ 0 1e-6 H eq_refl).
Qed.

Lemma delta_time_of_a_stalled_clock_witness :
  delta_time (Some 2000) 1000 = 1e-6.
Proof.
  apply delta_time_of_a_stalled_clock; reflexivity.
Defined.

(** X16: a frame at least 1000 ms after the previous one has the delta
    time 1, however long the pause was. *)
Theorem delta_time_after_a_long_pause (last time : float) :
  (1000 <=? time - last) = true ->
  delta_time (Some last) time = 1.
Proof.
  intros H. unfold delta_time. rewrite min_max_clamp.
  apply clamp_above, div_1000_ge_one, H.
Qed.

Lemma delta_time_after_a_long_pause_witness :
  delta_time (Some 1000) infinity = 1.
Proof.
  apply delta_time_after_a_long_pause. reflexivity.
Defined.

(** X14: with finite timestamps the delta time is a finite number between
    1e-6 and 1, hence never zero or negative, whatever the distance
    between the two timestamps. *)
Theorem delta_time_in_range (lastTime : option float) (time : float) :
  match lastTime with
  | None => True
  | Some last => is_finite last = true
  end ->
  is_finite time = true ->
  (1e-6 <=? delta_time lastTime time) = true /\
  (delta_time lastTime time <=? 1) = true /\
  (0 <? delta_time lastTime time) = true /\
  is_finite (delta_time lastTime time) = true.
Proof.
  intros Hl Ht.
  destruct (delta_time_bounds lastTime time Hl Ht) as [Lo Hi].
  repeat split; auto.
  - apply (ltb_leb_trans 0 1e-6); [reflexivity | exact Lo].
  - apply (leb_finite_between 1e-6 _ 1); auto.
Qed.

Lemma delta_time_in_range_witness :
  (1e-6 <=? delta_time (Some 1e300) (-1e300)) = true.
Proof.
  apply (delta_time_in_range (Some 1e300) (-1e300)); reflexivity.
Defined.

(** *** A time scale of zero *)

Lemma add_zero_product (t dt ts : float) :
  is_nan t = false ->
  (0 <? dt) = true -> is_finite dt = true ->
  (ts =? 0) = true ->
  (t + dt * ts =? t) = true.
Proof.
  intros Nt Pd Fd Z. apply is_nan_false in Nt.
  apply is_finite_SFfinite in Fd. revert Pd Z.
  rewrite ltb_spec, !eqb_spec, add_spec, mul_spec.
  change (Prim2SF 0) with (S754_zero false).
  destruct (Prim2SF dt) as [s|s| |s m e]; try discriminate.
  destruct s; [discriminate|]. intros _.
  destruct (Prim2SF ts) as [sz|sz| |sz mz ez]; try discriminate;
    try (destruct sz; discriminate).
  intros _. simpl SF64mul. unfold SF64mul, SFmul.
  now apply SFadd_zero.
Qed.

Section Driver.

Variables Math_sin Math_cos : float -> float.

Lemma step_paused (e : event) (s : App) :
  admissible e -> is_timescale_event e = false ->
  steady s -> (timescale s =? 0) = true ->
  let s' := fst (step Math_sin Math_cos e s) in
  steady s' /\ (timescale s' =? 0) = true /\
  (uniforms s' u_time =? uniforms s u_time) = true.
Proof.
  intros Ha Hn Hs Hz.
  destruct (step_steady Math_sin Math_cos e s Ha Hs) as [Hs' _].
  pose proof (step_clock Math_sin Math_cos e s) as C. cbv zeta in *.
  destruct Hs as (Ht & Hl & _).
  pose proof (ltb_not_nan _ _ Ht) as Nt.
  split; [exact Hs'|].
  destruct e as [time random|w h|value|name|text|value|name|u value|value
                |value|f value|value]; try discriminate Hn;
    destruct C as (A & B & D); rewrite A, D;
    try (split; [exact Hz | now apply eqb_refl]).
  split; [exact Hz|]. simpl in Ha.
  destruct (delta_time_bounds (lastTime s) time Hl Ha) as [Lo Hi].
  apply add_zero_product; auto.
  - apply (ltb_leb_trans 0 1e-6); [reflexivity | exact Lo].
  - apply (leb_finite_between 1e-6 _ 1); auto.
Qed.

(** X15: while the time scale is zero the time uniform keeps its value:
    over any events with finite frame timestamps that do not move the
    "Time Scale" slider, the time uniform at the end equals the time
    uniform at the start. *)
Theorem paused_time_stands_still (events : list event) (s : App) :
  steady s -> (timescale s =? 0) = true ->
  Forall admissible events ->
  forallb (fun e => negb (is_timescale_event e)) events = true ->
  (uniforms (fst (run Math_sin Math_cos events s)) u_time =?
   uniforms s u_time) = true.
Proof.
  intros Hs Hz Ha. revert s Hs Hz.
  induction Ha as [|e rest He Hrest IH]; intros s Hs Hz Hn.
  - apply eqb_refl. destruct Hs as (Ht & _). apply (ltb_not_nan _ _ Ht).
  - simpl in Hn. apply andb_prop in Hn as [Hne Hnrest].
    apply negb_true_iff in Hne.
    destruct (step_paused e s He Hne Hs Hz) as (Hs1 & Hz1 & E1).
    rewrite run_cons.
    exact (eqb_trans _ _ _ (IH _ Hs1 Hz1 Hnrest) E1).
Qed.

End Driver.

Lemma paused_time_stands_still_witness :
  let s := set_timescale 0 (initial_App (fun _ => 0)) in
  (uniforms
     (fst (run no_sin no_cos
             [Frame 1000 0.5; Slider AlphaMultiplier 2; Frame 2000 0.25]
             s)) u_time =?
   uniforms s u_time) = true.
Proof.
  intros s. apply paused_time_stands_still.
  - repeat split; reflexivity.
  - reflexivity.
  - repeat constructor.
  - reflexivity.
Defined.

End ClockFacts.

